(** * library-backend: the GraphQL resolvers over the catalog store

    A shallow embedding of the resolvers of [src/index.js] (the version with
    authentication and the derived [bookCount]) and of [src/unnamed/part_000]
    (the later version with the [bookAdded] subscription), and of the request
    [context] function.

    The resolvers are asynchronous functions over three Mongoose collections
    and one PubSub broker.  They are embedded as computations of a small
    state-and-exception monad [M] over a [World]: a resolver run from a world
    yields either a value or a thrown JavaScript error, and the world it
    leaves behind (a throw does not undo earlier writes).  Requests are
    executed one after the other, as one [await] chain each.

    [src/index.js] also holds the first version of the service, without
    users: its resolvers are those of the second version less the
    [currentUser] test, and are not repeated here.

    Strings are sequences of code units, so [String.length] is JavaScript's
    [length]; an ObjectId is a number; a GraphQL [Int] is a [Z].  The
    Mongoose schemas of [models/] are not part of the sources: what the
    store answers to a write is an input of the model (see [faults]). *)

From Stdlib Require Import String Ascii List ZArith Bool Arith Lia.
Import ListNotations.
Open Scope string_scope.
Open Scope list_scope.
Open Scope nat_scope.

(** ** JavaScript values used by the resolvers *)

(** Errors a resolver can throw.  [UserInputError] and [AuthenticationError]
    are Apollo's; [TypeError] is what a property access on [null] raises;
    [MongoError] is whatever [save()] rejects with; [JsonWebTokenError] is
    what [jwt.verify] throws.  Every error carries its [message]; the
    [invalidArgs] extension of a [UserInputError] is not represented. *)
Inductive Error : Type :=
| AuthenticationError (msg : string)
| UserInputError (msg : string)
| TypeError (msg : string)
| MongoError (msg : string)
| JsonWebTokenError (msg : string).

Definition message (e : Error) : string :=
  match e with
  | AuthenticationError m | UserInputError m | TypeError m
  | MongoError m | JsonWebTokenError m => m
  end.

Inductive Res (A : Type) : Type :=
| Ok (a : A)
| Throw (e : Error).
Arguments Ok {A} a.
Arguments Throw {A} e.

(** An optional GraphQL [String] argument is [None] when absent (or null).
    [truthy s] is the string when JavaScript treats the argument as true:
    present and not the empty string. *)
Definition truthy (s : option string) : option string :=
  match s with
  | Some v => if (v =? "")%string then None else Some v
  | None => None
  end.

Definition lower_ascii (c : ascii) : ascii :=
  let n := nat_of_ascii c in
  if (65 <=? n) && (n <=? 90) then ascii_of_nat (n + 32) else c.

(** [String.prototype.toLowerCase], on the ASCII letters. *)
Fixpoint toLowerCase (s : string) : string :=
  match s with
  | EmptyString => EmptyString
  | String c r => String (lower_ascii c) (toLowerCase r)
  end.

(** [s.substring(n)]: the string from position [n] on. *)
Definition substring_from (n : nat) (s : string) : string :=
  substring n (String.length s - n) s.

(** ** Documents *)

Definition ObjectId := nat.

Module Author.
Record t : Type := mk { _id : ObjectId; name : string; born : option Z }.
End Author.

Module Book.
(** [author] is the referenced Author's [_id]; [published] is [None] for
    [null]. *)
Record t : Type := mk {
  _id : ObjectId;
  title : string;
  published : option Z;
  genres : list string;
  author : ObjectId }.
End Book.

Module User.
Record t : Type := mk { _id : ObjectId; username : string; favoriteGenre : string }.
End User.

(** A Book after [populate('author')]: the author field holds the Author
    document, or [null] when the reference resolves to nothing. *)
Record PopulatedBook : Type := mkPopulated {
  pb_doc : Book.t;
  pb_author : option Author.t }.

(** What [allAuthors] returns for one author: the document's fields, and the
    [bookCount] property when the object has one. *)
Record AuthorObject : Type := mkAuthorObject {
  ao_doc : Author.t;
  ao_bookCount : option nat }.

(** ** The world: the three collections, the broker, the environment *)

(** [published] is the log of [pubsub.publish] calls, oldest first.
    [next_oid] drives the generation of fresh [_id]s.  [faults] is the
    store's verdict on the writes to come, next write first: [None] accepts
    the write, [Some msg] rejects it with that message (a schema or index
    violation declared in [models/], a lost connection); when the list is
    exhausted every write is accepted. *)
Record World : Type := mkWorld {
  authors : list Author.t;
  books : list Book.t;
  users : list User.t;
  published : list (string * PopulatedBook);
  next_oid : ObjectId;
  faults : list (option string) }.

(** The catalog proper: what the store holds. *)
Definition catalog (w : World) : list Author.t * list Book.t * list User.t :=
  (authors w, books w, users w).

(** ** The monad of resolvers *)

Definition M (A : Type) : Type := World -> Res A * World.

Definition ret {A} (a : A) : M A := fun w => (Ok a, w).

Definition throw {A} (e : Error) : M A := fun w => (Throw e, w).

Definition bind {A B} (m : M A) (k : A -> M B) : M B :=
  fun w =>
    match m w with
    | (Ok a, w') => k a w'
    | (Throw e, w') => (Throw e, w')
    end.

(** [try { m } catch (error) { h error }] *)
Definition try_catch {A} (m : M A) (h : Error -> M A) : M A :=
  fun w =>
    match m w with
    | (Ok a, w') => (Ok a, w')
    | (Throw e, w') => h e w'
    end.

Notation "x <- c ;; k" := (bind c (fun x => k))
  (at level 61, c at next level, right associativity).
Notation "c ;;; k" := (bind c (fun _ => k))
  (at level 61, right associativity).

Fixpoint mapM {A B} (f : A -> M B) (l : list A) : M (list B) :=
  match l with
  | [] => ret []
  | x :: r => y <- f x ;; ys <- mapM f r ;; ret (y :: ys)
  end.

(** ** The store adapter (Mongoose) *)

(** A fresh ObjectId, for a document under construction. *)
Definition fresh_oid : M ObjectId :=
  fun w => (Ok (next_oid w),
            mkWorld (authors w) (books w) (users w) (published w)
                    (S (next_oid w)) (faults w)).

(** The store's verdict on one write. *)
Definition store_write : M unit :=
  fun w =>
    match faults w with
    | Some msg :: rest =>
        (Throw (MongoError msg),
         mkWorld (authors w) (books w) (users w) (published w) (next_oid w) rest)
    | None :: rest =>
        (Ok tt,
         mkWorld (authors w) (books w) (users w) (published w) (next_oid w) rest)
    | [] => (Ok tt, w)
    end.

Definition set_authors (l : list Author.t) : M unit :=
  fun w => (Ok tt, mkWorld l (books w) (users w) (published w) (next_oid w) (faults w)).

Definition set_books (l : list Book.t) : M unit :=
  fun w => (Ok tt, mkWorld (authors w) l (users w) (published w) (next_oid w) (faults w)).

Definition set_users (l : list User.t) : M unit :=
  fun w => (Ok tt, mkWorld (authors w) (books w) l (published w) (next_oid w) (faults w)).

(** [updateOne({ _id: id }, { $set: { born: b } })] on a list of authors:
    the first document with that [_id] gets the new [born]. *)
Fixpoint update_born (id : ObjectId) (b : option Z) (l : list Author.t) : list Author.t :=
  match l with
  | [] => []
  | a :: r =>
      if Author._id a =? id
      then Author.mk (Author._id a) (Author.name a) b :: r
      else a :: update_born id b r
  end.

Module AuthorModel.
(** [Author.findOne({ name })] *)
Definition findOne (name : string) : M (option Author.t) :=
  fun w => (Ok (find (fun a => (Author.name a =? name)%string) (authors w)), w).

(** [Author.findById(id)], as [populate] uses it. *)
Definition findById (id : ObjectId) : M (option Author.t) :=
  fun w => (Ok (find (fun a => Author._id a =? id) (authors w)), w).

(** [Author.find({})] *)
Definition find_all : M (list Author.t) := fun w => (Ok (authors w), w).

(** [Author.collection.countDocuments()] *)
Definition countDocuments : M nat := fun w => (Ok (length (authors w)), w).

(** [Author({ name, born })]: a new document, not yet stored. *)
Definition create (name : string) (born : option Z) : M Author.t :=
  id <- fresh_oid ;; ret (Author.mk id name born).

(** [author.save()] on a new document: an insert. *)
Definition save_new (a : Author.t) : M unit :=
  store_write ;;; (fun w => set_authors (authors w ++ [a]) w).

(** [author.save()] on a fetched document whose [born] was assigned: an
    update of that path on the stored document with the same [_id]. *)
Definition save_born (a : Author.t) : M unit :=
  store_write ;;;
  (fun w => set_authors (update_born (Author._id a) (Author.born a) (authors w)) w).
End AuthorModel.

Module BookModel.
(** [Book.findOne({ title })] *)
Definition findOne (title : string) : M (option Book.t) :=
  fun w => (Ok (find (fun b => (Book.title b =? title)%string) (books w)), w).

(** The filter [{ genres: { $in: [g] }, author: { $in: [id] } }], each
    conjunct optional. *)
Definition matches (genre : option string) (author : option ObjectId) (b : Book.t) : bool :=
  match genre with
  | Some g => existsb (fun t => (t =? g)%string) (Book.genres b)
  | None => true
  end
  &&
  match author with
  | Some id => Book.author b =? id
  | None => true
  end.

(** [Book.find(filter)] *)
Definition find (genre : option string) (author : option ObjectId) : M (list Book.t) :=
  fun w => (Ok (filter (matches genre author) (books w)), w).

(** [Book.collection.countDocuments()] *)
Definition countDocuments : M nat := fun w => (Ok (length (books w)), w).

(** [new Book({ ...args, author })] *)
Definition create (title : string) (published : option Z)
    (genres : option (list string)) (author : ObjectId) : M Book.t :=
  id <- fresh_oid ;;
  ret (Book.mk id title published
         (match genres with Some l => l | None => [] end) author).

(** [book.populate('author')] *)
Definition populate (b : Book.t) : M PopulatedBook :=
  a <- AuthorModel.findById (Book.author b) ;; ret (mkPopulated b a).

(** [book.save()] on a new document: an insert. *)
Definition save_new (b : Book.t) : M unit :=
  store_write ;;; (fun w => set_books (books w ++ [b]) w).
End BookModel.

Module UserModel.
(** [User.findOne({ username })] *)
Definition findOne (username : string) : M (option User.t) :=
  fun w => (Ok (find (fun u => (User.username u =? username)%string) (users w)), w).

(** [User.findById(id)] *)
Definition findById (id : ObjectId) : M (option User.t) :=
  fun w => (Ok (find (fun u => User._id u =? id) (users w)), w).

(** [new User({ username, favoriteGenre })] *)
Definition create (username favoriteGenre : string) : M User.t :=
  id <- fresh_oid ;; ret (User.mk id username favoriteGenre).

(** [user.save()] on a new document: an insert. *)
Definition save_new (u : User.t) : M unit :=
  store_write ;;; (fun w => set_users (users w ++ [u]) w).
End UserModel.

(** ** The broker (graphql-subscriptions' PubSub) *)

(** [pubsub.publish(name, { bookAdded: book })] *)
Definition pubsub_publish (name : string) (payload : PopulatedBook) : M unit :=
  fun w => (Ok tt,
            mkWorld (authors w) (books w) (users w)
                    (published w ++ [(name, payload)]) (next_oid w) (faults w)).


(** ** jsonwebtoken *)

Definition JWT_SECRET : string := "NEED_HERE_A_SECRET_KEY".

(** The payload [{ username, id }] that [login] signs. *)
Record UserForToken : Type := mkUserForToken {
  tk_username : string;
  tk_id : ObjectId }.

(** The two functions of the jsonwebtoken library the code calls:
    [jwt.sign(payload, secret)] and [jwt.verify(token, secret)], the latter
    [None] when it throws. *)
Record Jwt : Type := mkJwt {
  jwt_sign : UserForToken -> string -> string;
  jwt_verify : string -> string -> option UserForToken }.

(** What the library promises: verifying a token under the key that signed
    it gives the payload back. *)
Definition jwt_sound (J : Jwt) : Prop :=
  forall p k, jwt_verify J (jwt_sign J p k) k = Some p.

(** ** The request context *)

(** [context: async ({ req }) => ...] of both files.  [auth] is the
    [authorization] header ([None] when there is none).  The result is the
    [currentUser] the resolvers read from the context: [None] when the
    function returns nothing or when [findById] finds nobody. *)
Definition context (J : Jwt) (auth : option string) : M (option User.t) :=
  match truthy auth with
  | Some a =>
      if String.prefix "bearer " (toLowerCase a) then
        match jwt_verify J (substring_from 7 a) JWT_SECRET with
        | Some decodedToken => UserModel.findById (tk_id decodedToken)
        | None => throw (JsonWebTokenError "invalid token")
        end
      else ret None
  | None => ret None
  end.

(** ** Query resolvers *)

Definition bookCount : M nat := BookModel.countDocuments.

Definition authorCount : M nat := AuthorModel.countDocuments.

(** [author._id] where [author] may be [null]. *)
Definition author_id (a : option Author.t) : M ObjectId :=
  match a with
  | Some d => ret (Author._id d)
  | None => throw (TypeError "Cannot read properties of null (reading '_id')")
  end.

(** [allBooks], the same text in every version. *)
Definition allBooks (author genre : option string) : M (list PopulatedBook) :=
  match truthy author, truthy genre with
  | Some a, Some g =>
      found <- AuthorModel.findOne a ;;
      id <- author_id found ;;
      bs <- BookModel.find (Some g) (Some id) ;;
      mapM BookModel.populate bs
  | Some a, None =>
      found <- AuthorModel.findOne a ;;
      id <- author_id found ;;
      bs <- BookModel.find None (Some id) ;;
      mapM BookModel.populate bs
  | None, Some g =>
      bs <- BookModel.find (Some g) None ;;
      mapM BookModel.populate bs
  | None, None =>
      bs <- BookModel.find None None ;;
      mapM BookModel.populate bs
  end.

(** [book.author.name] where the populated [author] may be [null]. *)
Definition author_name (b : PopulatedBook) : Res string :=
  match pb_author b with
  | Some a => Ok (Author.name a)
  | None => Throw (TypeError "Cannot read properties of null (reading 'name')")
  end.

(** The inner loop of [allAuthors] in [src/index.js]: [bookCount] starts at
    [n] and is incremented at each book whose [author.name] is [name]. *)
Fixpoint count_loop (name : string) (bs : list PopulatedBook) (n : nat) : Res nat :=
  match bs with
  | [] => Ok n
  | b :: r =>
      match author_name b with
      | Ok nm => count_loop name r (if (nm =? name)%string then n + 1 else n)
      | Throw e => Throw e
      end
  end.

Definition lift {A} (r : Res A) : M A := fun w => (r, w).

(** ** Mutation resolvers *)

(** The arguments of [addBook]: [title] and [author] are [String!],
    [published] is [None] for [null], [genres] is [None] when absent. *)
Record AddBookArgs : Type := mkAddBookArgs {
  ab_title : string;
  ab_author : string;
  ab_published : option Z;
  ab_genres : option (list string) }.

(** [catch (error) { throw new UserInputError(error.message, ...) }] *)
Definition as_UserInputError {A} (error : Error) : M A :=
  throw (UserInputError (message error)).

(** The three checks at the head of [addBook], after authentication. *)
Definition check_addBook_args (args : AddBookArgs) : M unit :=
  if (ab_title args =? "")%string || (ab_author args =? "")%string
     || (match ab_published args with None => true | Some _ => false end)
  then throw (UserInputError
         "The title, author and published fields must all have valid values")
  else if String.length (ab_title args) <? 2
  then throw (UserInputError
         "The length of the title must be at least 2 characters long")
  else
    existing <- BookModel.findOne (ab_title args) ;;
    match existing with
    | Some _ => throw (UserInputError "Title must be unique")
    | None => ret tt
    end.

(** [// Create author if author does not exist] *)
Definition find_or_create_author (args : AddBookArgs) : M Author.t :=
  found <- AuthorModel.findOne (ab_author args) ;;
  match found with
  | Some author => ret author
  | None =>
      if String.length (ab_author args) <? 4
      then throw (UserInputError
             "The length of the author's name must be at least 4 characters long")
      else
        author <- AuthorModel.create (ab_author args) None ;;
        try_catch (AuthorModel.save_new author) as_UserInputError ;;;
        ret author
  end.

(** [author.born = v] where [author] may be [null]. *)
Definition assign_born (a : option Author.t) (v : Z) : M Author.t :=
  match a with
  | Some d => ret (Author.mk (Author._id d) (Author.name d) (Some v))
  | None => throw (TypeError "Cannot set properties of null (setting 'born')")
  end.

(** [editAuthor] of [src/index.js] and of [src/unnamed/part_000] (the same
    text).  The GraphQL result type is the nullable [Author]. *)
Definition editAuthor (currentUser : option User.t) (name : string) (setBornTo : Z)
  : M (option Author.t) :=
  match currentUser with
  | None => throw (AuthenticationError "not authenticated")
  | Some _ =>
      found <- AuthorModel.findOne name ;;
      author <- assign_born found setBornTo ;;
      try_catch (AuthorModel.save_born author) as_UserInputError ;;;
      ret (Some author)
  end.

Definition createUser (username favoriteGenre : string) : M User.t :=
  user <- UserModel.create username favoriteGenre ;;
  try_catch (UserModel.save_new user ;;; ret user) as_UserInputError.

(** What [login] returns: [value], and [favoriteGenre] when the object has
    that property. *)
Record TokenObject : Type := mkTokenObject {
  value : string;
  favoriteGenre : option string }.

Definition userForToken (user : User.t) : UserForToken :=
  mkUserForToken (User.username user) (User._id user).

Module Index.
(** [allAuthors] of [src/index.js]. *)
Definition allAuthors : M (list AuthorObject) :=
  authors <- AuthorModel.find_all ;;
  bs <- BookModel.find None None ;;
  bs <- mapM BookModel.populate bs ;;
  mapM (fun author =>
          bookCount <- lift (count_loop (Author.name author) bs 0) ;;
          ret (mkAuthorObject author (Some bookCount)))
       authors.

(** [addBook] of [src/index.js]. *)
Definition addBook (currentUser : option User.t) (args : AddBookArgs) : M PopulatedBook :=
  match currentUser with
  | None => throw (AuthenticationError "not authenticated")
  | Some _ =>
      check_addBook_args args ;;;
      author <- find_or_create_author args ;;
      book <- BookModel.create (ab_title args) (ab_published args) (ab_genres args)
                (Author._id author) ;;
      populated <- BookModel.populate book ;;
      try_catch (BookModel.save_new book) as_UserInputError ;;;
      ret populated
  end.

(** [login] of [src/index.js]. *)
Definition login (J : Jwt) (username password : string) : M TokenObject :=
  user <- UserModel.findOne username ;;
  match user with
  | Some u =>
      if negb (password =? "secret")%string
      then throw (UserInputError "wrong credentials")
      else ret (mkTokenObject (jwt_sign J (userForToken u) JWT_SECRET) None)
  | None => throw (UserInputError "wrong credentials")
  end.
End Index.

Module Subscriptions.
(** [allAuthors] of [src/unnamed/part_000]: the documents as found. *)
Definition allAuthors : M (list AuthorObject) :=
  authors <- AuthorModel.find_all ;;
  ret (map (fun a => mkAuthorObject a None) authors).

(** [addBook] of [src/unnamed/part_000]. *)
Definition addBook (currentUser : option User.t) (args : AddBookArgs) : M PopulatedBook :=
  match currentUser with
  | None => throw (AuthenticationError "not authenticated")
  | Some _ =>
      check_addBook_args args ;;;
      author <- find_or_create_author args ;;
      book <- BookModel.create (ab_title args) (ab_published args) (ab_genres args)
                (Author._id author) ;;
      populated <- BookModel.populate book ;;
      try_catch (BookModel.save_new book) as_UserInputError ;;;
      pubsub_publish "BOOK_ADDED" populated ;;;
      ret populated
  end.

(** [login] of [src/unnamed/part_000]. *)
Definition login (J : Jwt) (username password : string) : M TokenObject :=
  user <- UserModel.findOne username ;;
  match user with
  | Some u =>
      if negb (password =? "secret")%string
      then throw (UserInputError "wrong credentials")
      else ret (mkTokenObject (jwt_sign J (userForToken u) JWT_SECRET)
                  (Some (User.favoriteGenre u)))
  | None => throw (UserInputError "wrong credentials")
  end.

End Subscriptions.

(** ** Requests *)

Inductive Version : Type := IndexJs | SubscriptionsJs.

Inductive Request : Type :=
| Q_bookCount
| Q_authorCount
| Q_allBooks (author genre : option string)
| Q_allAuthors
| Q_me
| M_addBook (args : AddBookArgs)
| M_editAuthor (name : string) (setBornTo : Z)
| M_createUser (username favoriteGenre : string)
| M_login (username password : string).

Inductive Response : Type :=
| R_Int (n : nat)
| R_Books (l : list PopulatedBook)
| R_Authors (l : list AuthorObject)
| R_Book (b : PopulatedBook)
| R_Author (a : option Author.t)
| R_User (u : User.t)
| R_Me (u : option User.t)
| R_Token (t : TokenObject).

Definition fmap {A B} (f : A -> B) (m : M A) : M B := a <- m ;; ret (f a).

(** The resolvers that differ between the two versions. *)
Definition allAuthors_in (v : Version) : M (list AuthorObject) :=
  match v with
  | IndexJs => Index.allAuthors
  | SubscriptionsJs => Subscriptions.allAuthors
  end.

Definition addBook_in (v : Version) : option User.t -> AddBookArgs -> M PopulatedBook :=
  match v with
  | IndexJs => Index.addBook
  | SubscriptionsJs => Subscriptions.addBook
  end.

Definition login_in (v : Version) : Jwt -> string -> string -> M TokenObject :=
  match v with
  | IndexJs => Index.login
  | SubscriptionsJs => Subscriptions.login
  end.

(** The resolver map of one version, applied to a request.  The schema's
    [me] has no resolver in either file: the default one answers [null]. *)
Definition resolve (J : Jwt) (v : Version) (currentUser : option User.t) (r : Request)
  : M Response :=
  match r with
  | Q_bookCount => fmap R_Int bookCount
  | Q_authorCount => fmap R_Int authorCount
  | Q_allBooks a g => fmap R_Books (allBooks a g)
  | Q_allAuthors => fmap R_Authors (allAuthors_in v)
  | Q_me => ret (R_Me None)
  | M_addBook args => fmap R_Book (addBook_in v currentUser args)
  | M_editAuthor n b => fmap R_Author (editAuthor currentUser n b)
  | M_createUser u g => fmap R_User (createUser u g)
  | M_login u p => fmap R_Token (login_in v J u p)
  end.

(** One operation: the context is computed from the request's
    [authorization] header, then the resolver runs. *)
Definition handle (J : Jwt) (v : Version) (call : option string * Request) : M Response :=
  currentUser <- context J (fst call) ;;
  resolve J v currentUser (snd call).

(** Operations executed one after the other; the world after the last. *)
Definition run (J : Jwt) (v : Version) (calls : list (option string * Request)) (w : World)
  : World :=
  fold_left (fun w c => snd (handle J v c w)) calls w.

(** ** Test doubles and sample data *)

(** An unsigned stand-in for jsonwebtoken: the token is the key, a dot, the
    id in unary, a dot, and the username. *)
Fixpoint unary (n : nat) : string :=
  match n with
  | 0 => EmptyString
  | S m => String "1" (unary m)
  end.

Fixpoint parse_unary (s : string) (acc : nat) : option UserForToken :=
  match s with
  | String "1" r => parse_unary r (S acc)
  | String "." r => Some (mkUserForToken r acc)
  | _ => None
  end.

Fixpoint strip_prefix (k t : string) : option string :=
  match k, t with
  | EmptyString, _ => Some t
  | String c k', String d t' => if Ascii.eqb c d then strip_prefix k' t' else None
  | String _ _, EmptyString => None
  end.

Definition plain_jwt : Jwt :=
  mkJwt
    (fun p k => (k ++ String "." (unary (tk_id p) ++ String "." (tk_username p)))%string)
    (fun t k =>
       match strip_prefix k t with
       | Some (String "." r) => parse_unary r 0
       | _ => None
       end).

Definition alice : User.t := User.mk 1 "alice" "tech".

Definition martin : Author.t := Author.mk 2 "Robert Martin" (Some 1952%Z).

Definition clean_code : Book.t :=
  Book.mk 3 "Clean Code" (Some 2008%Z) ["tech"] 2.

(** A store with one user and nothing else; every write is accepted. *)
Definition w_empty : World := mkWorld [] [] [alice] [] 2 [].

(** A store with one user, one author and one of his books. *)
Definition w_one : World := mkWorld [martin] [clean_code] [alice] [] 4 [].

Definition clean_code_args : AddBookArgs :=
  mkAddBookArgs "Clean Code" "Robert Martin" (Some 2008%Z) (Some ["tech"]).

(** The store accepts the first write and rejects the second. *)
Definition w_book_write_fails : World :=
  mkWorld [] [] [alice] [] 2 [None; Some "connection lost"].

(** ** Properties: decidable invariants of a world *)

(** Titles are unique across the Books. *)
Definition titles_unique (w : World) : Prop := NoDup (map Book.title (books w)).

(** Author identifiers are unique and below the next fresh one. *)
Definition author_ids_ok (w : World) : Prop :=
  NoDup (map Author._id (authors w)) /\
  Forall (fun a => Author._id a < next_oid w) (authors w).

(** Every Book's author reference resolves to a stored Author. *)
Definition refs_ok (w : World) : bool :=
  forallb (fun b => existsb (fun a => Author._id a =? Book.author b) (authors w))
          (books w).

(** The name of the Author a Book's reference resolves to. *)
Definition resolved_author_name (w : World) (b : Book.t) : option string :=
  option_map Author.name (find (fun a => Author._id a =? Book.author b) (authors w)).

(** The number of Books whose resolved author name is [name]. *)
Definition books_with_author_name (w : World) (name : string) : nat :=
  length (filter (fun b => match resolved_author_name w b with
                           | Some n => (n =? name)%string
                           | None => false
                           end) (books w)).

(** A Book populated against the Authors of [w]. *)
Definition populate_in (w : World) (b : Book.t) : PopulatedBook :=
  mkPopulated b (find (fun a => Author._id a =? Book.author b) (authors w)).

(** ** What one operation may do to the store *)

(** The effect of one operation on the collections of Authors and Books:
    identifiers only grow; the Authors gain at most one document with a
    fresh identifier, or one of them gets a new birth year; the Books gain
    at most one document, with a new title and a resolvable author. *)
Record step (w w' : World) : Prop := mkStep {
  step_oid : next_oid w <= next_oid w';
  step_authors :
    authors w' = authors w \/
    (exists a, authors w' = authors w ++ [a] /\
               next_oid w <= Author._id a < next_oid w') \/
    (exists id b, authors w' = update_born id b (authors w));
  step_books :
    books w' = books w \/
    (exists b, books w' = books w ++ [b] /\
               ~ In (Book.title b) (map Book.title (books w)) /\
               existsb (fun a => Author._id a =? Book.author b) (authors w') = true) }.

(** The invariant of the store. *)
Definition inv (w : World) : Prop :=
  titles_unique w /\ author_ids_ok w /\ refs_ok w = true.

(** ** Further notions used in the statements *)

(** A request that only reads: the queries, and [login]. *)
Definition reads_only (r : Request) : bool :=
  match r with
  | Q_bookCount | Q_authorCount | Q_allBooks _ _ | Q_allAuthors | Q_me
  | M_login _ _ => true
  | M_addBook _ | M_editAuthor _ _ | M_createUser _ _ => false
  end.

(** The store accepts the next [n] writes. *)
Fixpoint accepted (n : nat) (f : list (option string)) : bool :=
  match n, f with
  | 0, _ => true
  | S _, [] => true
  | S m, None :: rest => accepted m rest
  | S _, Some _ :: _ => false
  end.

(** The arguments pass the checks [addBook] makes on them alone. *)
Definition valid_addBook_args (args : AddBookArgs) : bool :=
  negb (ab_title args =? "")%string && negb (ab_author args =? "")%string
  && (match ab_published args with Some _ => true | None => false end)
  && (2 <=? String.length (ab_title args)).

(** The number of writes a valid [addBook] makes: the Book, and the Author
    when no Author has the name. *)
Definition addBook_writes (args : AddBookArgs) (w : World) : nat :=
  match find (fun a => (Author.name a =? ab_author args)%string) (authors w) with
  | Some _ => 1
  | None => 2
  end.

(** The Author a successful [addBook] attaches the Book to. *)
Definition addBook_author (args : AddBookArgs) (w : World) : Author.t :=
  match find (fun a => (Author.name a =? ab_author args)%string) (authors w) with
  | Some a => a
  | None => Author.mk (next_oid w) (ab_author args) None
  end.

(** What the validation of [addBook] guarantees of stored documents. *)
Definition book_validated (b : Book.t) : bool :=
  (2 <=? String.length (Book.title b))
  && (match Book.published b with Some _ => true | None => false end).

Definition author_validated (a : Author.t) : bool :=
  4 <=? String.length (Author.name a).

Definition store_validated (w : World) : bool :=
  forallb book_validated (books w) && forallb author_validated (authors w).

(** The sum of the [bookCount]s of a list of returned authors. *)
Fixpoint sum_bookCount (l : list AuthorObject) : nat :=
  match l with
  | [] => 0
  | o :: r => (match ao_bookCount o with Some n => n | None => 0 end) + sum_bookCount r
  end.

(** The effect of one operation of version [v] on the store and the
    broker: Users are only added; an Author is added with a name that
    passed the length check, or gets a new birth year; a Book is added only
    with a title and a year that passed the checks, and in the version with
    the subscription its addition is published, and nothing else is. *)
Record effect (v : Version) (w w' : World) : Prop := mkEffect {
  eff_users : exists l, users w' = users w ++ l;
  eff_authors :
    authors w' = authors w \/
    (exists a, authors w' = authors w ++ [a] /\ author_validated a = true) \/
    (exists id b, authors w' = update_born id b (authors w));
  eff_books :
    (books w' = books w /\ published w' = published w) \/
    (exists pb, books w' = books w ++ [pb_doc pb] /\
                book_validated (pb_doc pb) = true /\
                published w' =
                  match v with
                  | IndexJs => published w
                  | SubscriptionsJs => published w ++ [("BOOK_ADDED", pb)]
                  end) }.

(** * Theorems *)

(** ** Reading resolvers: the world is left as it was *)

Ltac unfold_m :=
  unfold fmap, bind, ret, throw, lift, try_catch, as_UserInputError in *.

Lemma mapM_populate (bs : list Book.t) (w : World) :
  mapM BookModel.populate bs w =
  (Ok (map (fun b => mkPopulated b (find (fun a => Author._id a =? Book.author b)
                                         (authors w))) bs), w).
Proof.
  induction bs as [|b r IH]; simpl.
  - reflexivity.
  - unfold bind at 1. unfold BookModel.populate at 1, AuthorModel.findById.
    unfold_m. rewrite IH. reflexivity.
Qed.

Lemma truthy_empty : truthy (Some "") = None.
Proof. reflexivity. Qed.

(** ** allBooks *)

(** C10: an empty-string [author] or [genre] argument selects the same
    branch, and so gives the same answer, as an absent one; the empty
    string is never used as a filter. *)
Theorem allBooks_empty_string_is_absent (author genre : option string) (w : World) :
  allBooks (Some "") genre w = allBooks None genre w /\
  allBooks author (Some "") w = allBooks author None w /\
  allBooks (Some "") (Some "") w =
    (Ok (map (fun b => mkPopulated b (find (fun a => Author._id a =? Book.author b)
                                           (authors w))) (books w)), w).
Proof.
  split; [reflexivity|]. split; [reflexivity|].
  unfold allBooks. rewrite truthy_empty.
  unfold bind, BookModel.find. rewrite mapM_populate. simpl.
  f_equal. f_equal. clear.
  induction (books w) as [|b r IH]; simpl; [reflexivity|]. now rewrite IH.
Qed.

(** With an author name that matches no Author, [allBooks] dereferences
    [null]: both author branches throw a TypeError, whatever the genre. *)
Lemma allBooks_unknown_author (author genre : option string) (n : string) (w : World) :
  truthy author = Some n ->
  find (fun a => (Author.name a =? n)%string) (authors w) = None ->
  allBooks author genre w =
  (Throw (TypeError "Cannot read properties of null (reading '_id')"), w).
Proof.
  intros Ht Hf. unfold allBooks. rewrite Ht.
  destruct (truthy genre); unfold bind, AuthorModel.findOne; rewrite Hf; reflexivity.
Qed.

(** C2: [allBooks(author: "Nobody")] on a store without such an Author
    throws a TypeError instead of returning the empty sequence, with or
    without a genre filter. *)
Theorem allBooks_unknown_author_throws :
  allBooks (Some "Nobody") None w_one =
    (Throw (TypeError "Cannot read properties of null (reading '_id')"), w_one) /\
  allBooks (Some "Nobody") (Some "tech") w_one =
    (Throw (TypeError "Cannot read properties of null (reading '_id')"), w_one) /\
  fst (allBooks (Some "Nobody") None w_one) <> Ok [].
Proof.
  repeat split; try (apply allBooks_unknown_author with (n := "Nobody"); reflexivity).
  rewrite (allBooks_unknown_author (Some "Nobody") None "Nobody" w_one eq_refl eq_refl).
  discriminate.
Qed.

(** ** editAuthor *)

(** With a name that matches no Author, [editAuthor] assigns to a property
    of [null]: it throws a TypeError, before any write. *)
Lemma editAuthor_unknown_name (u : User.t) (name : string) (v : Z) (w : World) :
  find (fun a => (Author.name a =? name)%string) (authors w) = None ->
  editAuthor (Some u) name v w =
  (Throw (TypeError "Cannot set properties of null (setting 'born')"), w).
Proof.
  intros Hf. unfold editAuthor, bind, AuthorModel.findOne. rewrite Hf. reflexivity.
Qed.

(** C1: [editAuthor(name: "Nobody", setBornTo: 1900)] by an authenticated
    caller, on a store without such an Author, throws a TypeError: the
    result is not null.  The store is not written. *)
Theorem editAuthor_unknown_author_throws :
  editAuthor (Some alice) "Nobody" 1900%Z w_one =
    (Throw (TypeError "Cannot set properties of null (setting 'born')"), w_one) /\
  fst (editAuthor (Some alice) "Nobody" 1900%Z w_one) <> Ok None.
Proof.
  rewrite (editAuthor_unknown_name alice "Nobody" 1900%Z w_one eq_refl).
  split; [reflexivity | discriminate].
Qed.

(** ** allAuthors *)

Lemma filter_all_books (l : list Book.t) : filter (BookModel.matches None None) l = l.
Proof. induction l as [|b r IH]; simpl; [reflexivity | now rewrite IH]. Qed.

Lemma find_existsb {A} (p : A -> bool) (l : list A) :
  existsb p l = true -> exists a, find p l = Some a.
Proof.
  induction l as [|x r IH]; simpl; [discriminate|].
  destruct (p x); [eauto | exact IH].
Qed.

(** The counting loop over resolved books: it adds to the counter the
    number of books whose resolved author name is [name]. *)
Lemma count_loop_resolved (w : World) (name : string) (bs : list Book.t) (n : nat) :
  forallb (fun b => existsb (fun a => Author._id a =? Book.author b) (authors w)) bs
    = true ->
  count_loop name (map (populate_in w) bs) n =
  Ok (n + length (filter (fun b => match resolved_author_name w b with
                                   | Some m => (m =? name)%string
                                   | None => false
                                   end) bs)).
Proof.
  revert n. induction bs as [|b r IH]; intros n H; simpl in *.
  - f_equal. lia.
  - apply andb_prop in H as [Hb Hr].
    destruct (find_existsb _ _ Hb) as [a Ha].
    unfold author_name, resolved_author_name. simpl. rewrite Ha. simpl.
    rewrite (IH _ Hr). unfold resolved_author_name.
    destruct (Author.name a =? name)%string; simpl; f_equal; lia.
Qed.

Lemma mapM_count (w : World) (bs : list PopulatedBook) (f : string -> nat)
    (l : list Author.t) :
  (forall a, In a l -> count_loop (Author.name a) bs 0 = Ok (f (Author.name a))) ->
  mapM (fun author =>
          bookCount <- lift (count_loop (Author.name author) bs 0) ;;
          ret (mkAuthorObject author (Some bookCount))) l w =
  (Ok (map (fun a => mkAuthorObject a (Some (f (Author.name a)))) l), w).
Proof.
  induction l as [|a r IH]; intros H; simpl.
  - reflexivity.
  - unfold bind at 1. unfold bind at 1. unfold lift at 1.
    rewrite (H a (or_introl eq_refl)). unfold ret at 1.
    unfold bind at 1. rewrite IH; [reflexivity|].
    intros x Hx. apply H. now right.
Qed.

(** [allAuthors] of [src/index.js] on a store whose references resolve. *)
Lemma Index_allAuthors_resolved (w : World) :
  refs_ok w = true ->
  Index.allAuthors w =
  (Ok (map (fun a => mkAuthorObject a (Some (books_with_author_name w (Author.name a))))
           (authors w)), w).
Proof.
  intros H. unfold Index.allAuthors.
  unfold bind at 1. unfold AuthorModel.find_all at 1.
  unfold bind at 1. unfold BookModel.find at 1. rewrite filter_all_books.
  unfold bind at 1. rewrite mapM_populate.
  apply mapM_count. intros a _.
  change (fun b => mkPopulated b (find (fun a0 => Author._id a0 =? Book.author b)
                                        (authors w))) with (populate_in w).
  now rewrite (count_loop_resolved w (Author.name a) (books w) 0 H).
Qed.




(** ** addBook *)

Ltac unfold_addBook :=
  unfold addBook_in, Subscriptions.addBook, Index.addBook, check_addBook_args,
    find_or_create_author, BookModel.create, BookModel.populate, BookModel.save_new,
    BookModel.findOne, AuthorModel.findOne, AuthorModel.findById, AuthorModel.create,
    AuthorModel.save_new, pubsub_publish, fresh_oid, store_write, set_authors,
    set_books, as_UserInputError, try_catch, bind, ret, throw in *.

(** Case analysis along the tests the resolver makes: the conditions, the
    lookups, and the store's verdicts on the writes. *)
Ltac split_cases :=
  repeat (simpl in *; match goal with
  | |- context [if ?c then _ else _] => destruct c eqn:?
  | |- context [match find ?p ?l with _ => _ end] => destruct (find p l) eqn:?
  | |- context [match faults ?w with _ => _ end] =>
      destruct (faults w) as [|[?|] ?] eqn:?
  | |- context [match ?l with [] => _ | _ => _ end] =>
      is_var l; destruct l as [|[?|] ?]
  end).




(** C5, as amended: an [addBook] that throws creates no Book, touches no
    User and publishes nothing; the Authors are as before too, except when
    the call created the Author, the store accepted that write and then
    rejected the Book's: the new Author stays. *)
Theorem addBook_failure_state (v : Version) (currentUser : option User.t)
    (args : AddBookArgs) (w w' : World) (e : Error) :
  addBook_in v currentUser args w = (Throw e, w') ->
  books w' = books w /\ users w' = users w /\ published w' = published w /\
  (authors w' = authors w \/
   (find (fun a => (Author.name a =? ab_author args)%string) (authors w) = None /\
    authors w' = (authors w ++ [Author.mk (next_oid w) (ab_author args) None])%list /\
    exists msg rest, faults w = None :: Some msg :: rest /\ e = UserInputError msg)).
Proof.
  destruct currentUser as [u|]; destruct v;
    cbv [addBook_in Subscriptions.addBook Index.addBook throw];
    try (intros [= _ <-]; auto 6).
  all: unfold_addBook; split_cases; intros [= <- <-]; simpl;
    repeat split; auto; right; repeat split; eauto.
Qed.

Lemma addBook_failure_state_witness :
  exists e w',
    addBook_in SubscriptionsJs (Some alice) clean_code_args w_one = (Throw e, w') /\
    books w' = books w_one /\ authors w' = authors w_one.
Proof.
  exists (UserInputError "Title must be unique"), w_one.
  split; [reflexivity|].
  destruct (addBook_failure_state SubscriptionsJs (Some alice) clean_code_args
              w_one w_one (UserInputError "Title must be unique") eq_refl)
    as (Hb & _ & _ & _).
  split; [exact Hb | reflexivity].
Defined.

(** C5, as stated, fails: [addBook] for a new author, when the store accepts
    the Author and rejects the Book, throws a UserInputError and leaves the
    new Author in the store. *)
Lemma addBook_failure_leaves_author :
  addBook_in SubscriptionsJs (Some alice) clean_code_args w_book_write_fails =
    (Throw (UserInputError "connection lost"),
     mkWorld [Author.mk 2 "Robert Martin" None] [] [alice] [] 4 []) /\
  catalog (mkWorld [Author.mk 2 "Robert Martin" None] [] [alice] [] 4 []) <>
    catalog w_book_write_fails.
Proof.
  split; [reflexivity | discriminate].
Qed.

(** ** Every operation is a step *)

Lemma step_same (w w' : World) :
  authors w' = authors w -> books w' = books w -> next_oid w <= next_oid w' ->
  step w w'.
Proof. intros Ha Hb Ho. constructor; auto. Qed.

Lemma find_title_None (t : string) (l : list Book.t) :
  find (fun b => (Book.title b =? t)%string) l = None ->
  ~ In t (map Book.title l).
Proof.
  intros Hf Hin. apply in_map_iff in Hin as [b [<- Hb]].
  pose proof (find_none _ _ Hf b Hb) as H. simpl in H.
  now rewrite String.eqb_refl in H.
Qed.

Lemma find_title_In (t : string) (l : list Book.t) :
  In t (map Book.title l) ->
  exists b, find (fun b => (Book.title b =? t)%string) l = Some b.
Proof.
  intros Hin. apply find_existsb. apply existsb_exists.
  apply in_map_iff in Hin as [b [<- Hb]]. exists b. split; [exact Hb|].
  apply String.eqb_refl.
Qed.

Lemma find_name_existsb (n : string) (l : list Author.t) (a : Author.t) :
  find (fun x => (Author.name x =? n)%string) l = Some a ->
  existsb (fun x => Author._id x =? Author._id a) l = true.
Proof.
  intros Hf. apply find_some in Hf as [Hin _].
  apply existsb_exists. exists a. split; [exact Hin | apply Nat.eqb_refl].
Qed.

Lemma existsb_snoc {A} (p : A -> bool) (l : list A) (x : A) :
  existsb p (l ++ [x]) = existsb p l || p x.
Proof. rewrite existsb_app. simpl. now rewrite orb_false_r. Qed.

Lemma mapM_world {A B} (f : A -> M B) (l : list A) (w : World) :
  (forall x w0, snd (f x w0) = w0) -> snd (mapM f l w) = w.
Proof.
  intros Hf. induction l as [|x r IH]; simpl; [reflexivity|].
  unfold bind at 1. pose proof (Hf x w) as Hx.
  destruct (f x w) as [[y|e] w1]; simpl in Hx; subst w1; [|reflexivity].
  unfold bind at 1. destruct (mapM f r w) as [[ys|e] w2]; simpl in *; now subst.
Qed.

Lemma allBooks_world (author genre : option string) (w : World) :
  snd (allBooks author genre w) = w.
Proof.
  unfold allBooks.
  destruct (truthy author), (truthy genre);
    unfold bind, AuthorModel.findOne, author_id, BookModel.find, ret, throw;
    try destruct (find _ (authors w)); simpl; try reflexivity;
    now rewrite mapM_populate.
Qed.

Lemma Index_allAuthors_world (w : World) : snd (Index.allAuthors w) = w.
Proof.
  unfold Index.allAuthors.
  unfold bind at 1. unfold AuthorModel.find_all at 1.
  unfold bind at 1. unfold BookModel.find at 1.
  unfold bind at 1. rewrite mapM_populate.
  apply mapM_world. intros a w0. unfold bind, lift, ret.
  now destruct (count_loop _ _ _).
Qed.

Lemma context_world (J : Jwt) (auth : option string) (w : World) :
  snd (context J auth w) = w.
Proof.
  unfold context. destruct (truthy auth); [|reflexivity].
  destruct (String.prefix _ _); [|reflexivity].
  now destruct (jwt_verify J _ _).
Qed.

Lemma addBook_step (v : Version) (currentUser : option User.t) (args : AddBookArgs)
    (w : World) :
  step w (snd (addBook_in v currentUser args w)).
Proof.
  destruct currentUser as [u|]; destruct v;
    cbv [addBook_in Subscriptions.addBook Index.addBook throw];
    try (apply step_same; simpl; auto; fail).
  all: unfold_addBook; split_cases;
    try (apply step_same; simpl; auto; fail).
  all: constructor; simpl; try lia.
  all: repeat match goal with
    | |- ?x = ?x \/ _ => left; reflexivity
    | |- _ ++ [_] = _ \/ _ => right
    | |- (exists a, _ ++ [_] = _ ++ [a] /\ _) \/ _ =>
        left; eexists; split; [reflexivity | simpl; lia]
    | |- exists b, _ /\ _ /\ _ => eexists; split; [reflexivity|]; split; simpl
    | |- ~ In _ _ => apply find_title_None; assumption
    | |- existsb _ (_ ++ [_]) = true =>
        rewrite existsb_snoc; simpl; rewrite Nat.eqb_refl; apply orb_true_r
    | |- existsb _ _ = true => eapply find_name_existsb; eassumption
    end.
Qed.

Ltac unfold_editAuthor :=
  unfold editAuthor, assign_born, AuthorModel.findOne, AuthorModel.save_born,
    store_write, set_authors, as_UserInputError, try_catch, bind, ret, throw in *.

Lemma editAuthor_step (currentUser : option User.t) (name : string) (b : Z) (w : World) :
  step w (snd (editAuthor currentUser name b w)).
Proof.
  destruct currentUser as [u|]; [|apply step_same; reflexivity].
  unfold_editAuthor. split_cases; try (apply step_same; simpl; auto; fail).
  all: constructor; simpl; auto; right; right; eauto.
Qed.

Lemma createUser_step (username favoriteGenre : string) (w : World) :
  step w (snd (createUser username favoriteGenre w)).
Proof.
  unfold createUser, UserModel.create, UserModel.save_new, fresh_oid, store_write,
    set_users, as_UserInputError, try_catch, bind, ret, throw.
  split_cases; apply step_same; simpl; auto.
Qed.

Lemma login_world (J : Jwt) (v : Version) (username password : string) (w : World) :
  snd (login_in v J username password w) = w.
Proof.
  destruct v; unfold login_in, Index.login, Subscriptions.login, UserModel.findOne, bind, ret, throw;
    destruct (find _ (users w)); try reflexivity;
    destruct (negb _); reflexivity.
Qed.

Lemma fmap_world {A B} (f : A -> B) (m : M A) (w : World) :
  snd (fmap f m w) = snd (m w).
Proof. unfold fmap, bind, ret. now destruct (m w) as [[a|e] w']. Qed.

Lemma step_of_same (w w' : World) : w' = w -> step w w'.
Proof. intros ->. now apply step_same. Qed.

Lemma resolve_step (J : Jwt) (v : Version) (currentUser : option User.t) (r : Request)
    (w : World) :
  step w (snd (resolve J v currentUser r w)).
Proof.
  destruct r; unfold resolve; try rewrite fmap_world.
  - now apply step_of_same.
  - now apply step_of_same.
  - apply step_of_same, allBooks_world.
  - apply step_of_same. destruct v; [apply Index_allAuthors_world | reflexivity].
  - now apply step_of_same.
  - apply addBook_step.
  - apply editAuthor_step.
  - apply createUser_step.
  - apply step_of_same, login_world.
Qed.

Lemma handle_step (J : Jwt) (v : Version) (call : option string * Request) (w : World) :
  step w (snd (handle J v call w)).
Proof.
  unfold handle, bind. pose proof (context_world J (fst call) w) as H.
  destruct (context J (fst call) w) as [[cu|e] w1]; simpl in H; subst w1.
  - apply resolve_step.
  - now apply step_of_same.
Qed.

Lemma NoDup_snoc {A} (l : list A) (x : A) : NoDup l -> ~ In x l -> NoDup (l ++ [x]).
Proof.
  intros Hl Hx. induction Hl as [|y l Hy Hl IH]; simpl.
  - constructor; [intros [] | constructor].
  - constructor.
    + rewrite in_app_iff. simpl. intros [H|[H|[]]]; [now apply Hy|].
      subst. apply Hx. now left.
    + apply IH. intros H. apply Hx. now right.
Qed.

Lemma update_born_ids (id : ObjectId) (b : option Z) (l : list Author.t) :
  map Author._id (update_born id b l) = map Author._id l.
Proof.
  induction l as [|a r IH]; simpl; [reflexivity|].
  destruct (Author._id a =? id); simpl; [reflexivity | now rewrite IH].
Qed.

Lemma existsb_id_map (l l' : list Author.t) (id : ObjectId) :
  map Author._id l' = map Author._id l ->
  existsb (fun a => Author._id a =? id) l' = existsb (fun a => Author._id a =? id) l.
Proof.
  revert l'. induction l as [|a r IH]; intros [|a' r'] H; simpl in *;
    try discriminate; [reflexivity|].
  injection H as -> Hr. now rewrite (IH _ Hr).
Qed.

Lemma step_titles (w w' : World) : titles_unique w -> step w w' -> titles_unique w'.
Proof.
  unfold titles_unique. intros Ht [_ _ Hb].
  destruct Hb as [Hb | (b & Hb & Hnew & _)]; rewrite Hb; [exact Ht|].
  rewrite map_app. simpl. now apply NoDup_snoc.
Qed.

Lemma step_author_ids (w w' : World) : author_ids_ok w -> step w w' -> author_ids_ok w'.
Proof.
  unfold author_ids_ok. intros (Hn & Hlt) [Ho Ha _].
  destruct Ha as [Ha | [(a & Ha & Hid) | (id & b & Ha)]]; rewrite Ha; split.
  - exact Hn.
  - eapply Forall_impl; [|exact Hlt]. simpl. intros; lia.
  - rewrite map_app. simpl. apply NoDup_snoc; [exact Hn|].
    intros Hin. apply in_map_iff in Hin as (x & Hx & Hin).
    rewrite Forall_forall in Hlt. specialize (Hlt x Hin). lia.
  - apply Forall_app. split.
    + eapply Forall_impl; [|exact Hlt]. simpl. intros; lia.
    + constructor; [lia | constructor].
  - now rewrite update_born_ids.
  - apply Forall_forall. intros x Hx.
    assert (Hi : In (Author._id x) (map Author._id (authors w))).
    { rewrite <- (update_born_ids id b). now apply in_map. }
    apply in_map_iff in Hi as (y & Hy & Hi).
    rewrite Forall_forall in Hlt. specialize (Hlt y Hi). lia.
Qed.

Lemma step_refs (w w' : World) : refs_ok w = true -> step w w' -> refs_ok w' = true.
Proof.
  intros Hr [_ Ha Hb].
  assert (Hold : forall x, existsb (fun a => Author._id a =? x) (authors w) = true ->
                           existsb (fun a => Author._id a =? x) (authors w') = true).
  { intros x Hx.
    destruct Ha as [Ha | [(a & Ha & Hid) | (id & b & Ha)]]; rewrite Ha.
    - exact Hx.
    - rewrite existsb_app, Hx. reflexivity.
    - rewrite (existsb_id_map (authors w)); [exact Hx | apply update_born_ids]. }
  unfold refs_ok in *. rewrite forallb_forall in Hr.
  apply forallb_forall. intros x Hx.
  destruct Hb as [Hb | (b & Hb & _ & Hres)]; rewrite Hb in Hx.
  - apply Hold, Hr, Hx.
  - apply in_app_iff in Hx as [Hx | [<- | []]]; [apply Hold, Hr, Hx | exact Hres].
Qed.

Lemma step_inv (w w' : World) : inv w -> step w w' -> inv w'.
Proof.
  intros (Ht & Hi & Hr) Hs. repeat split.
  - eapply step_titles; eassumption.
  - eapply step_author_ids; eassumption.
  - eapply step_author_ids; eassumption.
  - eapply step_refs; eassumption.
Qed.

(** What every step preserves holds after any sequence of operations. *)
Lemma run_preserves (P : World -> Prop) (J : Jwt) (v : Version)
    (calls : list (option string * Request)) (w : World) :
  (forall w0 w1, P w0 -> step w0 w1 -> P w1) -> P w -> P (run J v calls w).
Proof.
  intros HP. revert w. induction calls as [|c r IH]; intros w H; simpl; [exact H|].
  apply IH. eapply HP; [exact H | apply handle_step].
Qed.

Lemma run_inv (J : Jwt) (v : Version) (calls : list (option string * Request)) (w : World) :
  inv w -> inv (run J v calls w).
Proof. apply run_preserves. exact step_inv. Qed.

Lemma inv_w_empty : inv w_empty.
Proof.
  unfold inv, titles_unique, author_ids_ok. simpl. repeat constructor.
Qed.

(** After any sequence of operations on a store that satisfies the
    invariant, [allAuthors] of [src/index.js] still counts by name. *)
Lemma Index_allAuthors_after_run (J : Jwt) (calls : list (option string * Request))
    (w : World) :
  inv w ->
  let w1 := run J IndexJs calls w in
  Index.allAuthors w1 =
  (Ok (map (fun a => mkAuthorObject a (Some (books_with_author_name w1 (Author.name a))))
           (authors w1)), w1).
Proof.
  intros H w1. apply Index_allAuthors_resolved.
  now destruct (run_inv J IndexJs calls w H) as (_ & _ & Hr).
Qed.

(** C4: when a Book with the title exists, [addBook] by an authenticated
    caller throws a UserInputError and leaves the store as it was; and if
    titles are unique they remain so through any sequence of operations. *)
Theorem addBook_duplicate_title (J : Jwt) (v : Version) (w : World) :
  (forall (u : User.t) (args : AddBookArgs),
     In (ab_title args) (map Book.title (books w)) ->
     exists msg, addBook_in v (Some u) args w = (Throw (UserInputError msg), w)) /\
  (titles_unique w -> forall calls, titles_unique (run J v calls w)).
Proof.
  split.
  - intros u args Hin. apply find_title_In in Hin as [b Hb].
    destruct v; unfold_addBook; split_cases; try congruence; eauto.
  - intros Ht calls. now apply run_preserves; [exact step_titles|].
Qed.

Lemma addBook_duplicate_title_witness :
  (exists msg, addBook_in SubscriptionsJs (Some alice) clean_code_args w_one =
               (Throw (UserInputError msg), w_one)) /\
  titles_unique
    (run plain_jwt SubscriptionsJs
       [(Some "Bearer NEED_HERE_A_SECRET_KEY.1.alice", M_addBook clean_code_args)]
       w_one).
Proof.
  destruct (addBook_duplicate_title plain_jwt SubscriptionsJs w_one) as [H1 H2].
  split.
  - apply H1. simpl. now left.
  - apply H2. repeat constructor. intros [].
Defined.

(** ** editAuthor on an existing Author *)

(** With unique identifiers, the update by [_id] changes the one document
    it was read from, and only its [born]. *)
Lemma update_born_map (a : Author.t) (b : option Z) (l : list Author.t) :
  NoDup (map Author._id l) -> In a l ->
  update_born (Author._id a) b l =
  map (fun x => if Author._id x =? Author._id a
                then Author.mk (Author._id a) (Author.name a) b else x) l.
Proof.
  induction l as [|x r IH]; simpl; intros Hn Hin; [contradiction|].
  inversion Hn as [|i ids Hx Hr]; subst.
  destruct (Author._id x =? Author._id a) eqn:E.
  - apply Nat.eqb_eq in E.
    assert (x = a) as ->.
    { destruct Hin as [H|H]; [exact H|].
      exfalso. apply Hx. rewrite E. now apply in_map. }
    f_equal. clear IH Hn Hin Hr E.
    induction r as [|y r IH]; simpl; [reflexivity|].
    destruct (Author._id y =? Author._id a) eqn:E.
    + exfalso. apply Hx. apply Nat.eqb_eq in E. rewrite <- E. simpl. now left.
    + f_equal. apply IH. intros H. apply Hx. simpl. now right.
  - f_equal. apply IH; [exact Hr|].
    destruct Hin as [H|H]; [|exact H].
    subst. now rewrite Nat.eqb_refl in E.
Qed.



(** ** login and the request context *)


Lemma substring_all (s : string) : substring 0 (String.length s) s = s.
Proof. induction s as [|c r IH]; simpl; [reflexivity | now rewrite IH]. Qed.

(** The header [Bearer <token>] passes the test of [context], and
    [substring(7)] gives the token back. *)
Lemma bearer_header (t : string) :
  truthy (Some ("Bearer " ++ t)%string) = Some ("Bearer " ++ t)%string /\
  String.prefix "bearer " (toLowerCase ("Bearer " ++ t)) = true /\
  substring_from 7 ("Bearer " ++ t) = t.
Proof.
  split; [reflexivity|]. split.
  - simpl. now destruct (toLowerCase t).
  - unfold substring_from. simpl. rewrite Nat.sub_0_r. apply substring_all.
Qed.

Lemma findById_of_member (u : User.t) (l : list User.t) :
  In u l ->
  exists u', find (fun x => User._id x =? User._id u) l = Some u' /\
             User._id u' = User._id u.
Proof.
  intros Hin.
  destruct (find (fun x => User._id x =? User._id u) l) as [u'|] eqn:Hf.
  - exists u'. split; [reflexivity|].
    apply find_some in Hf as [_ H]. now apply Nat.eqb_eq in H.
  - pose proof (find_none _ _ Hf u Hin) as H. simpl in H.
    now rewrite Nat.eqb_refl in H.
Qed.

(** What a successful [login] returns, in either version. *)
Lemma login_Ok (J : Jwt) (v : Version) (username password : string) (w w' : World)
    (t : TokenObject) :
  login_in v J username password w = (Ok t, w') ->
  w' = w /\ password = "secret" /\
  exists u, find (fun x => (User.username x =? username)%string) (users w) = Some u /\
            value t = jwt_sign J (userForToken u) JWT_SECRET.
Proof.
  destruct v; unfold login_in, Index.login, Subscriptions.login, UserModel.findOne,
    bind, ret, throw;
    destruct (find _ (users w)) as [u|]; try discriminate;
    destruct (String.eqb_spec password "secret"); simpl; try discriminate;
    intros [= <- <-]; eauto.
Qed.

(** With the right password, [login] succeeds for any user that
    [findOne] finds. *)
Lemma login_succeeds (J : Jwt) (v : Version) (u : User.t) (w : World) :
  find (fun x => (User.username x =? User.username u)%string) (users w) = Some u ->
  exists t, login_in v J (User.username u) "secret" w = (Ok t, w).
Proof.
  intros Hf.
  destruct v; unfold login_in, Index.login, Subscriptions.login, UserModel.findOne,
    bind, ret, throw; rewrite Hf; simpl; eauto.
Qed.

(** C8: the token a successful [login] issues for a stored User, presented
    as [Bearer <token>], makes [context] verify it and find a current user
    with that User's identifier (that very User when identifiers are
    unique), provided jsonwebtoken verifies what it signed. *)
Theorem login_token_resolves (J : Jwt) (v : Version) (u : User.t) (password : string)
    (w w' : World) (t : TokenObject) :
  jwt_sound J ->
  find (fun x => (User.username x =? User.username u)%string) (users w) = Some u ->
  login_in v J (User.username u) password w = (Ok t, w') ->
  exists u',
    context J (Some ("Bearer " ++ value t)%string) w' = (Ok (Some u'), w') /\
    User._id u' = User._id u /\
    (NoDup (map User._id (users w)) -> u' = u).
Proof.
  intros HJ Hf Hl.
  apply login_Ok in Hl as (-> & _ & u0 & Hf0 & Hv).
  rewrite Hf in Hf0. injection Hf0 as <-.
  apply find_some in Hf as [Hin _].
  destruct (findById_of_member u (users w) Hin) as (u' & Hf' & Hid).
  exists u'. split; [|split; [exact Hid|]].
  - unfold context. destruct (bearer_header (value t)) as (-> & -> & ->).
    rewrite Hv, HJ. unfold UserModel.findById. simpl. now rewrite Hf'.
  - intros Hn. apply find_some in Hf' as [Hin' _].
    clear - Hn Hin Hin' Hid. induction (users w) as [|x r IH]; [contradiction|].
    simpl in Hn. inversion Hn as [|i ids Hx Hr]; subst.
    destruct Hin as [->|Hin], Hin' as [->|Hin']; auto.
    + exfalso. apply Hx. rewrite <- Hid. now apply in_map.
    + exfalso. apply Hx. rewrite Hid. now apply in_map.
Qed.

Lemma plain_jwt_sound : jwt_sound plain_jwt.
Proof.
  intros [name id] k. simpl.
  assert (Hs : forall k r, strip_prefix k (k ++ r)%string = Some r).
  { clear. induction k as [|c k IH]; intros r; simpl; [reflexivity|].
    now rewrite Ascii.eqb_refl. }
  rewrite Hs.
  assert (Hp : forall n acc, parse_unary (unary n ++ String "." name)%string acc
                             = Some (mkUserForToken name (n + acc))).
  { clear. induction n as [|n IH]; intros acc; simpl; [reflexivity|].
    rewrite IH. do 2 f_equal. lia. }
  rewrite Hp. do 2 f_equal. lia.
Qed.

Lemma login_token_resolves_witness :
  exists u',
    context plain_jwt (Some "Bearer NEED_HERE_A_SECRET_KEY.1.alice") w_one
      = (Ok (Some u'), w_one) /\
    User._id u' = User._id alice /\
    (NoDup (map User._id (users w_one)) -> u' = alice).
Proof.
  exact (login_token_resolves plain_jwt SubscriptionsJs alice "secret" w_one w_one
           (mkTokenObject "NEED_HERE_A_SECRET_KEY.1.alice" (Some "tech"))
           plain_jwt_sound eq_refl eq_refl).
Defined.

(** ** The two versions compared *)

(** [addBook] of [src/index.js] publishes nothing, and otherwise does what
    [addBook] of [src/unnamed/part_000] does. *)
Lemma addBook_versions_agree (currentUser : option User.t) (args : AddBookArgs)
    (w : World) :
  fst (Index.addBook currentUser args w) = fst (Subscriptions.addBook currentUser args w) /\
  catalog (snd (Index.addBook currentUser args w)) =
    catalog (snd (Subscriptions.addBook currentUser args w)) /\
  published (snd (Index.addBook currentUser args w)) = published w.
Proof.
  destruct currentUser as [u|]; [|repeat split].
  unfold catalog. unfold_addBook. split_cases; repeat split.
Qed.

(** [login] of [src/index.js] fails exactly when the later one does, and
    returns the same token, without the favorite genre. *)
Lemma login_versions_agree (J : Jwt) (username password : string) (w : World) :
  match Subscriptions.login J username password w with
  | (Ok t, w') =>
      Index.login J username password w = (Ok (mkTokenObject (value t) None), w')
  | (Throw e, w') => Index.login J username password w = (Throw e, w')
  end.
Proof.
  unfold Index.login, Subscriptions.login, UserModel.findOne, bind, ret, throw.
  destruct (find _ (users w)); [|reflexivity].
  now destruct (negb _).
Qed.

(** * Further properties of the resolvers *)

(** ** The request context *)


(** X2: when [context] yields no current user, [addBook] and [editAuthor]
    fail with AuthenticationError and leave the world as it was, whatever
    their arguments: the test precedes every validation and lookup. *)
Theorem anonymous_mutations_rejected (J : Jwt) (v : Version) (auth : option string)
    (w : World) (args : AddBookArgs) (name : string) (setBornTo : Z) :
  context J auth w = (Ok None, w) ->
  handle J v (auth, M_addBook args) w =
    (Throw (AuthenticationError "not authenticated"), w) /\
  handle J v (auth, M_editAuthor name setBornTo) w =
    (Throw (AuthenticationError "not authenticated"), w).
Proof.
  intros Hc. unfold handle, bind. simpl. rewrite Hc.
  split; [destruct v|]; reflexivity.
Qed.

Lemma anonymous_mutations_rejected_witness :
  handle plain_jwt SubscriptionsJs (Some "Basic YWxpY2U6c2VjcmV0", M_addBook clean_code_args)
    w_one = (Throw (AuthenticationError "not authenticated"), w_one) /\
  handle plain_jwt SubscriptionsJs
    (Some "Basic YWxpY2U6c2VjcmV0", M_editAuthor "Nobody" 1900%Z) w_one =
    (Throw (AuthenticationError "not authenticated"), w_one).
Proof.
  exact (anonymous_mutations_rejected plain_jwt SubscriptionsJs
           (Some "Basic YWxpY2U6c2VjcmV0") w_one clean_code_args "Nobody" 1900%Z
           eq_refl).
Defined.

(** X3: a header with the bearer scheme whose token does not verify makes
    every operation fail, the public queries, [createUser] and [login]
    included, and nothing is read or written. *)
Theorem bad_token_fails_every_request (J : Jwt) (v : Version) (a : string)
    (r : Request) (w : World) :
  a <> "" ->
  String.prefix "bearer " (toLowerCase a) = true ->
  jwt_verify J (substring_from 7 a) JWT_SECRET = None ->
  exists msg, handle J v (Some a, r) w = (Throw (JsonWebTokenError msg), w).
Proof.
  intros Ha Hp Hv. unfold handle, bind, context. simpl.
  destruct (String.eqb_spec a ""); [contradiction|].
  rewrite Hp, Hv. unfold throw. eauto.
Qed.

Lemma bad_token_fails_every_request_witness :
  exists msg,
    handle plain_jwt SubscriptionsJs (Some "Bearer forged", Q_bookCount) w_one =
    (Throw (JsonWebTokenError msg), w_one).
Proof.
  apply (bad_token_fails_every_request plain_jwt SubscriptionsJs "Bearer forged"
           Q_bookCount w_one); [discriminate | reflexivity | reflexivity].
Defined.

Lemma toLowerCase_length (s : string) : String.length (toLowerCase s) = String.length s.
Proof. induction s as [|c r IH]; simpl; [reflexivity | now rewrite IH]. Qed.

Lemma toLowerCase_app (s t : string) :
  toLowerCase (s ++ t) = (toLowerCase s ++ toLowerCase t)%string.
Proof. induction s as [|c r IH]; simpl; [reflexivity | now rewrite IH]. Qed.

Lemma prefix_app (s t : string) : String.prefix s (s ++ t) = true.
Proof.
  induction s as [|c r IH]; simpl; [now destruct t|].
  destruct (ascii_dec c c); [exact IH | contradiction].
Qed.

Lemma substring_from_app (s t : string) : substring_from (String.length s) (s ++ t) = t.
Proof.
  unfold substring_from. induction s as [|c r IH]; simpl.
  - rewrite Nat.sub_0_r. apply substring_all.
  - exact IH.
Qed.

(** X4: the scheme is recognised whatever its case: a header made of any
    spelling of "bearer " and a token is treated as "Bearer " and that
    token. *)
Theorem context_scheme_case_insensitive (J : Jwt) (scheme t : string) (w : World) :
  toLowerCase scheme = "bearer " ->
  context J (Some (scheme ++ t)%string) w = context J (Some ("Bearer " ++ t)%string) w.
Proof.
  intros Hs.
  assert (Hl : String.length scheme = 7).
  { rewrite <- toLowerCase_length, Hs. reflexivity. }
  assert (Hne : truthy (Some (scheme ++ t)%string) = Some (scheme ++ t)%string).
  { destruct scheme; [discriminate|]. reflexivity. }
  unfold context at 1. rewrite Hne, toLowerCase_app, Hs, prefix_app.
  rewrite <- Hl, substring_from_app.
  unfold context. destruct (bearer_header t) as (-> & -> & ->). reflexivity.
Qed.

Lemma context_scheme_case_insensitive_witness :
  context plain_jwt (Some "BEARER NEED_HERE_A_SECRET_KEY.1.alice") w_one =
  context plain_jwt (Some "Bearer NEED_HERE_A_SECRET_KEY.1.alice") w_one.
Proof.
  exact (context_scheme_case_insensitive plain_jwt "BEARER "
           "NEED_HERE_A_SECRET_KEY.1.alice" w_one eq_refl).
Defined.

(** ** The reading operations *)

(** X5: the queries and [login] never change the world, whether they
    return or throw, for any caller and in either version. *)
Theorem reading_requests_never_write (J : Jwt) (v : Version) (auth : option string)
    (r : Request) (w : World) :
  reads_only r = true -> snd (handle J v (auth, r) w) = w.
Proof.
  intros Hr. unfold handle, bind. simpl.
  pose proof (context_world J auth w) as Hc.
  destruct (context J auth w) as [[cu|e] w1]; simpl in Hc; subst w1; [|reflexivity].
  destruct r; try discriminate; unfold resolve; try rewrite fmap_world;
    try reflexivity.
  - apply allBooks_world.
  - destruct v; [apply Index_allAuthors_world | reflexivity].
  - apply login_world.
Qed.

Lemma reading_requests_never_write_witness :
  snd (handle plain_jwt IndexJs (None, Q_allBooks (Some "Nobody") None) w_one) = w_one.
Proof.
  exact (reading_requests_never_write plain_jwt IndexJs None
           (Q_allBooks (Some "Nobody") None) w_one eq_refl).
Defined.

(** ** allBooks with an existing author, or with none *)

Lemma matches_iff (genre : option string) (author : option ObjectId) (b : Book.t) :
  BookModel.matches genre author b = true <->
  (forall g, genre = Some g -> In g (Book.genres b)) /\
  (forall id, author = Some id -> Book.author b = id).
Proof.
  unfold BookModel.matches. rewrite andb_true_iff. split.
  - intros [Hg Ha]. split.
    + intros g ->. apply existsb_exists in Hg as (t & Hin & Ht).
      apply String.eqb_eq in Ht. now subst.
    + intros id ->. now apply Nat.eqb_eq.
  - intros [Hg Ha]. split.
    + destruct genre as [g|]; [|reflexivity].
      apply existsb_exists. exists g. split; [now apply Hg | apply String.eqb_refl].
    + destruct author as [id|]; [|reflexivity].
      apply Nat.eqb_eq. now apply Ha.
Qed.

Lemma NoDup_map_inj {A B} (f : A -> B) (l : list A) (x y : A) :
  NoDup (map f l) -> In x l -> In y l -> f x = f y -> x = y.
Proof.
  induction l as [|z r IH]; simpl; intros Hn Hx Hy Hf; [contradiction|].
  inversion Hn as [|i ids Hz Hr]; subst.
  destruct Hx as [->|Hx], Hy as [->|Hy]; auto.
  - exfalso. apply Hz. rewrite Hf. now apply in_map.
  - exfalso. apply Hz. rewrite <- Hf. now apply in_map.
Qed.

Lemma find_author_by_id (a : Author.t) (l : list Author.t) :
  In a l ->
  exists a', find (fun x => Author._id x =? Author._id a) l = Some a' /\
             In a' l /\ Author._id a' = Author._id a.
Proof.
  intros Hin.
  destruct (find (fun x => Author._id x =? Author._id a) l) as [a'|] eqn:Hf.
  - exists a'. apply find_some in Hf as [Hin' H]. apply Nat.eqb_eq in H. auto.
  - pose proof (find_none _ _ Hf a Hin) as H. simpl in H.
    now rewrite Nat.eqb_refl in H.
Qed.

Lemma pb_doc_populate (w : World) (bs : list Book.t) :
  map pb_doc (map (populate_in w) bs) = bs.
Proof. rewrite map_map. simpl. apply map_id. Qed.

(** The result of [allBooks] in the branches that find their author, and
    in those without an author. *)
Lemma allBooks_result (author genre : option string) (w : World) (oid : option ObjectId) :
  match truthy author with
  | Some n => exists a, find (fun x => (Author.name x =? n)%string) (authors w) = Some a
                        /\ oid = Some (Author._id a)
  | None => oid = None
  end ->
  allBooks author genre w =
  (Ok (map (populate_in w) (filter (BookModel.matches (truthy genre) oid) (books w))), w).
Proof.
  unfold allBooks.
  destruct (truthy author) as [n|].
  - intros (a & Hf & ->).
    destruct (truthy genre); unfold bind, AuthorModel.findOne, BookModel.find;
      rewrite Hf; simpl; apply mapM_populate.
  - intros ->.
    destruct (truthy genre); unfold bind, BookModel.find; apply mapM_populate.
Qed.





(** ** allAuthors of src/index.js: edge behaviour and totals *)

Lemma count_loop_dangling (w : World) (name : string) (bs : list Book.t) (n : nat) :
  (exists b, In b bs /\
     find (fun a => Author._id a =? Book.author b) (authors w) = None) ->
  count_loop name (map (populate_in w) bs) n =
  Throw (TypeError "Cannot read properties of null (reading 'name')").
Proof.
  revert n. induction bs as [|x r IH]; intros n (b & Hin & Hb); [contradiction|].
  simpl. unfold author_name. simpl.
  destruct (find (fun a => Author._id a =? Book.author x) (authors w)) as [a|] eqn:Hx;
    [|reflexivity].
  apply IH. exists b. split; [|exact Hb].
  destruct Hin as [->|Hin]; [congruence | exact Hin].
Qed.

(** X8: when some Book's author reference resolves to nothing, [allAuthors]
    of [src/index.js] throws a TypeError as soon as there is an Author to
    count for; with no Author at all it returns the empty list. *)
Theorem Index_allAuthors_dangling_reference (w : World) (b : Book.t) :
  In b (books w) ->
  find (fun a => Author._id a =? Book.author b) (authors w) = None ->
  Index.allAuthors w =
  match authors w with
  | [] => (Ok [], w)
  | _ :: _ => (Throw (TypeError "Cannot read properties of null (reading 'name')"), w)
  end.
Proof.
  intros Hin Hb. unfold Index.allAuthors.
  unfold bind at 1. unfold AuthorModel.find_all at 1.
  unfold bind at 1. unfold BookModel.find at 1. rewrite filter_all_books.
  unfold bind at 1. rewrite mapM_populate.
  change (fun b0 => mkPopulated b0 (find (fun a0 => Author._id a0 =? Book.author b0)
                                         (authors w))) with (populate_in w).
  assert (Hc : forall name, count_loop name (map (populate_in w) (books w)) 0 =
                 Throw (TypeError "Cannot read properties of null (reading 'name')")).
  { intros name. apply count_loop_dangling. eauto. }
  revert Hc. generalize (map (populate_in w) (books w)). intros pbs Hc.
  destruct (authors w) as [|a r]; [reflexivity|].
  simpl. unfold bind at 1. unfold bind at 1. unfold lift at 1.
  now rewrite Hc.
Qed.

Lemma Index_allAuthors_dangling_reference_witness :
  Index.allAuthors (mkWorld [martin] [Book.mk 3 "Orphan" (Some 2000%Z) [] 9] [] [] 4 []) =
  (Throw (TypeError "Cannot read properties of null (reading 'name')"),
   mkWorld [martin] [Book.mk 3 "Orphan" (Some 2000%Z) [] 9] [] [] 4 []).
Proof.
  exact (Index_allAuthors_dangling_reference
           (mkWorld [martin] [Book.mk 3 "Orphan" (Some 2000%Z) [] 9] [] [] 4 [])
           (Book.mk 3 "Orphan" (Some 2000%Z) [] 9) (or_introl eq_refl) eq_refl).
Defined.

(** Whether the resolved author name of [b] is [n]. *)
Lemma count_one_name (w : World) (b : Book.t) (ns : list string) :
  NoDup ns ->
  list_sum (map (fun n => if match resolved_author_name w b with
                              | Some m => (m =? n)%string
                              | None => false
                              end then 1 else 0) ns) =
  match resolved_author_name w b with
  | Some m => if existsb (String.eqb m) ns then 1 else 0
  | None => 0
  end.
Proof.
  destruct (resolved_author_name w b) as [m|].
  - induction ns as [|n r IH]; intros Hn; simpl; [reflexivity|].
    inversion Hn as [|x xs Hx Hr]; subst. rewrite (IH Hr).
    destruct (String.eqb_spec m n) as [->|Hne]; simpl; [|reflexivity].
    destruct (existsb (String.eqb n) r) eqn:E; [|reflexivity].
    apply existsb_exists in E as (y & Hy & Hyn). apply String.eqb_eq in Hyn.
    subst. contradiction.
  - intros _. induction ns as [|n r IH]; simpl; [reflexivity | exact IH].
Qed.

Lemma sum_filter_cons {A} (p : string -> A -> bool) (x : A) (r : list A)
    (ns : list string) :
  list_sum (map (fun n => length (filter (p n) (x :: r))) ns) =
  list_sum (map (fun n => if p n x then 1 else 0) ns) +
  list_sum (map (fun n => length (filter (p n) r)) ns).
Proof.
  induction ns as [|n ns IH]; simpl; [reflexivity|].
  simpl in IH. rewrite IH. destruct (p n x); simpl; lia.
Qed.

(** With distinct names, the per-name counts of resolved Books add up to
    the number of Books. *)
Lemma sum_counts (w : World) (ns : list string) (bs : list Book.t) :
  NoDup ns ->
  (forall b, In b bs -> exists m, resolved_author_name w b = Some m /\ In m ns) ->
  list_sum (map (fun n => length (filter (fun b => match resolved_author_name w b with
                                                   | Some m => (m =? n)%string
                                                   | None => false
                                                   end) bs)) ns) = length bs.
Proof.
  intros Hn. induction bs as [|b r IH]; intros Hres.
  - simpl. clear. induction ns as [|n ns IH]; simpl; [reflexivity | exact IH].
  - rewrite (sum_filter_cons (fun n b => match resolved_author_name w b with
                                         | Some m => (m =? n)%string
                                         | None => false
                                         end)).
    rewrite IH by (intros x Hx; apply Hres; now right).
    rewrite (count_one_name w b ns Hn).
    destruct (Hres b (or_introl eq_refl)) as (m & -> & Hin).
    assert (He : existsb (String.eqb m) ns = true).
    { apply existsb_exists. exists m. split; [exact Hin | apply String.eqb_refl]. }
    rewrite He. reflexivity.
Qed.

Lemma sum_bookCount_map (f : Author.t -> nat) (l : list Author.t) :
  sum_bookCount (map (fun a => mkAuthorObject a (Some (f a))) l) = list_sum (map f l).
Proof. induction l as [|a r IH]; simpl; [reflexivity | now rewrite IH]. Qed.

(** X9: when Author names are distinct and every Book's reference
    resolves, the [bookCount]s that [allAuthors] of [src/index.js] returns
    add up to the number of Books: each Book is counted once. *)
Theorem Index_allAuthors_counts_every_book_once (w : World) :
  NoDup (map Author.name (authors w)) ->
  refs_ok w = true ->
  exists l, Index.allAuthors w = (Ok l, w) /\ sum_bookCount l = length (books w).
Proof.
  intros Hn Hr. eexists. split; [apply Index_allAuthors_resolved, Hr|].
  rewrite sum_bookCount_map. unfold books_with_author_name.
  rewrite <- (map_map Author.name
                (fun n => length (filter (fun b => match resolved_author_name w b with
                                                   | Some m => (m =? n)%string
                                                   | None => false
                                                   end) (books w)))).
  apply sum_counts; [exact Hn|].
  intros b Hb. unfold refs_ok in Hr. rewrite forallb_forall in Hr.
  destruct (find_existsb _ _ (Hr b Hb)) as [a Ha].
  exists (Author.name a). unfold resolved_author_name. rewrite Ha. split; [reflexivity|].
  apply in_map. now apply find_some in Ha as [Hin _].
Qed.

Lemma Index_allAuthors_counts_every_book_once_witness :
  exists l, Index.allAuthors w_one = (Ok l, w_one) /\ sum_bookCount l = length (books w_one).
Proof.
  apply (Index_allAuthors_counts_every_book_once w_one); [|reflexivity].
  simpl. constructor; [intros [] | constructor].
Defined.

(** ** addBook: when it succeeds, and what it then does *)

Ltac unfold_addBook_tail :=
  unfold find_or_create_author, BookModel.create, BookModel.populate, BookModel.save_new,
    AuthorModel.findOne, AuthorModel.findById, AuthorModel.create,
    AuthorModel.save_new, pubsub_publish, fresh_oid, store_write, set_authors,
    set_books, as_UserInputError, try_catch, bind, ret, throw in *.

(** The checks on the arguments and on the title either all pass, or throw
    a UserInputError; they write nothing. *)
Lemma check_addBook_args_cases (args : AddBookArgs) (w : World) :
  (check_addBook_args args w = (Ok tt, w) /\
   valid_addBook_args args = true /\
   find (fun b => (Book.title b =? ab_title args)%string) (books w) = None)
  \/
  ((exists msg, check_addBook_args args w = (Throw (UserInputError msg), w)) /\
   (valid_addBook_args args = false \/
    find (fun b => (Book.title b =? ab_title args)%string) (books w) <> None)).
Proof.
  unfold check_addBook_args, valid_addBook_args, bind, BookModel.findOne, ret, throw.
  rewrite Nat.ltb_antisym.
  destruct (ab_title args =? "")%string; cbn [orb negb andb]; [right; eauto|].
  destruct (ab_author args =? "")%string; cbn [orb negb andb]; [right; eauto|].
  destruct (ab_published args); cbn [orb negb andb]; [|right; eauto].
  destruct (2 <=? String.length (ab_title args)); cbn [orb negb andb]; [|right; eauto].
  destruct (find _ (books w)); [right | left].
  - split; [eauto | right; discriminate].
  - auto.
Qed.

(** [addBook] past its checks. *)
Lemma addBook_checked (v : Version) (u : User.t) (args : AddBookArgs) (w : World) :
  check_addBook_args args w = (Ok tt, w) ->
  addBook_in v (Some u) args w =
  match v with
  | IndexJs =>
      (author <- find_or_create_author args ;;
       book <- BookModel.create (ab_title args) (ab_published args) (ab_genres args)
                 (Author._id author) ;;
       populated <- BookModel.populate book ;;
       try_catch (BookModel.save_new book) as_UserInputError ;;;
       ret populated) w
  | SubscriptionsJs =>
      (author <- find_or_create_author args ;;
       book <- BookModel.create (ab_title args) (ab_published args) (ab_genres args)
                 (Author._id author) ;;
       populated <- BookModel.populate book ;;
       try_catch (BookModel.save_new book) as_UserInputError ;;;
       pubsub_publish "BOOK_ADDED" populated ;;;
       ret populated) w
  end.
Proof.
  intros H. destruct v; unfold addBook_in, Index.addBook, Subscriptions.addBook;
    unfold bind at 1; rewrite H; reflexivity.
Qed.

Lemma addBook_failed_check (v : Version) (u : User.t) (args : AddBookArgs) (w : World)
    (msg : string) :
  check_addBook_args args w = (Throw (UserInputError msg), w) ->
  addBook_in v (Some u) args w = (Throw (UserInputError msg), w).
Proof.
  intros H. destruct v; unfold addBook_in, Index.addBook, Subscriptions.addBook;
    unfold bind at 1; rewrite H; reflexivity.
Qed.

(** X10: [addBook] by an authenticated caller succeeds exactly when the
    title and the author are not empty, the year is not null, the title
    has two characters or more and is not the title of a stored Book, the
    author is stored or has a name of four characters or more, and the
    store accepts the writes the call makes (one, or two when it creates
    the Author). *)
Theorem addBook_succeeds_iff (v : Version) (u : User.t) (args : AddBookArgs) (w : World) :
  (exists b w', addBook_in v (Some u) args w = (Ok b, w')) <->
  valid_addBook_args args = true /\
  find (fun b => (Book.title b =? ab_title args)%string) (books w) = None /\
  (find (fun a => (Author.name a =? ab_author args)%string) (authors w) <> None \/
   4 <= String.length (ab_author args)) /\
  accepted (addBook_writes args w) (faults w) = true.
Proof.
  destruct (check_addBook_args_cases args w) as [(Hc & Hv & Hb) | ((msg & Hc) & Hno)].
  - rewrite (addBook_checked v u args w Hc). unfold addBook_writes.
    split.
    + intros (b & w' & H). split; [exact Hv|]. split; [exact Hb|]. revert H.
      destruct v; unfold_addBook_tail; split_cases; simpl; try discriminate; intros _;
        match goal with
        | H : (_ <? 4) = false |- _ => apply Nat.ltb_ge in H
        | _ => idtac
        end; (split; [|reflexivity]); auto; left; discriminate.
    + intros (_ & _ & Ha & Hf). revert Ha Hf.
      destruct v; unfold_addBook_tail; split_cases; intros Ha Hf; simpl in *;
        eauto; try discriminate;
        match goal with
        | H : (_ <? 4) = true |- _ => apply Nat.ltb_lt in H
        end; (destruct Ha as [Ha|Ha]; [contradiction | lia]).
  - rewrite (addBook_failed_check v u args w msg Hc). split.
    + intros (b & w' & H). discriminate.
    + intros (Hv & Hb & _). destruct Hno; congruence.
Qed.

Lemma find_snoc_None {A} (p : A -> bool) (l : list A) (x : A) :
  find p l = None -> find p (l ++ [x]) = if p x then Some x else None.
Proof.
  induction l as [|y r IH]; simpl; intros H; [reflexivity|].
  destruct (p y); [discriminate | now apply IH].
Qed.

(** What a successful [addBook] has done. *)
Lemma addBook_Ok_effect (v : Version) (currentUser : option User.t) (args : AddBookArgs)
    (w w' : World) (b : PopulatedBook) :
  addBook_in v currentUser args w = (Ok b, w') ->
  valid_addBook_args args = true /\
  pb_doc b = Book.mk (Book._id (pb_doc b)) (ab_title args) (ab_published args)
               (match ab_genres args with Some l => l | None => [] end)
               (Author._id (addBook_author args w)) /\
  pb_author b = find (fun x => Author._id x =? Author._id (addBook_author args w))
                     (authors w') /\
  books w' = books w ++ [pb_doc b] /\
  users w' = users w /\
  authors w' =
    match find (fun a => (Author.name a =? ab_author args)%string) (authors w) with
    | Some _ => authors w
    | None => authors w ++ [addBook_author args w]
    end /\
  find (fun a => (Author.name a =? ab_author args)%string) (authors w') =
    Some (addBook_author args w) /\
  published w' = match v with
                 | IndexJs => published w
                 | SubscriptionsJs => published w ++ [("BOOK_ADDED", b)]
                 end.
Proof.
  destruct currentUser as [u|]; [|destruct v; discriminate].
  destruct (check_addBook_args_cases args w) as [(Hc & Hv & Hb) | ((msg & Hc) & _)];
    [|rewrite (addBook_failed_check v u args w msg Hc); discriminate].
  rewrite (addBook_checked v u args w Hc). intros H.
  split; [exact Hv|]. revert H. unfold addBook_author.
  destruct v; unfold_addBook_tail; split_cases; simpl; try discriminate;
    intros [= <- <-]; simpl; repeat split; auto;
    rewrite find_snoc_None by assumption; simpl; now rewrite String.eqb_refl.
Qed.

Lemma find_id_unique (a : Author.t) (l : list Author.t) :
  NoDup (map Author._id l) -> In a l ->
  find (fun x => Author._id x =? Author._id a) l = Some a.
Proof.
  intros Hn Hin.
  destruct (find_author_by_id a l Hin) as (a' & -> & Hin' & Hid).
  f_equal. now apply (NoDup_map_inj Author._id l).
Qed.

Lemma find_id_fresh (n : ObjectId) (l : list Author.t) :
  Forall (fun a => Author._id a < n) l ->
  find (fun x => Author._id x =? n) l = None.
Proof.
  induction 1 as [|a r Ha Hr IH]; simpl; [reflexivity|].
  destruct (Nat.eqb_spec (Author._id a) n); [lia | exact IH].
Qed.

(** X11: a successful [addBook] stores one Book, with the title, year and
    genres given and a reference to the Author of the given name: the
    first stored Author of that name, or a new one with no birth year,
    stored just before the Book.  It returns that Book with that Author
    attached, and touches no User.  (Author identifiers are unique and
    below the next fresh one.) *)
Theorem addBook_success_effect (v : Version) (currentUser : option User.t)
    (args : AddBookArgs) (w w' : World) (b : PopulatedBook) :
  author_ids_ok w ->
  addBook_in v currentUser args w = (Ok b, w') ->
  let a := addBook_author args w in
  Author.name a = ab_author args /\
  pb_author b = Some a /\
  Book.title (pb_doc b) = ab_title args /\
  Book.published (pb_doc b) = ab_published args /\
  Book.genres (pb_doc b) = match ab_genres args with Some l => l | None => [] end /\
  Book.author (pb_doc b) = Author._id a /\
  books w' = books w ++ [pb_doc b] /\
  users w' = users w /\
  authors w' =
    match find (fun x => (Author.name x =? ab_author args)%string) (authors w) with
    | Some _ => authors w
    | None => authors w ++ [Author.mk (next_oid w) (ab_author args) None]
    end.
Proof.
  intros [Hn Hlt] H.
  apply addBook_Ok_effect in H as (_ & Hdoc & Hpa & Hb & Hu & Ha & _ & _).
  assert (Hfields :
    Book.title (pb_doc b) = ab_title args /\
    Book.published (pb_doc b) = ab_published args /\
    Book.genres (pb_doc b) = match ab_genres args with Some l => l | None => [] end /\
    Book.author (pb_doc b) = Author._id (addBook_author args w)).
  { rewrite Hdoc. simpl. auto. }
  clear Hdoc. destruct Hfields as (Ht & Hp & Hg & Hr).
  unfold addBook_author in *.
  destruct (find (fun x => (Author.name x =? ab_author args)%string) (authors w))
    as [a|] eqn:Hf; simpl.
  - apply find_some in Hf as [Hin Hname]. apply String.eqb_eq in Hname.
    rewrite Ha in Hpa. rewrite (find_id_unique a (authors w) Hn Hin) in Hpa.
    repeat split; auto.
  - rewrite Ha in Hpa. rewrite find_snoc_None in Hpa by now apply find_id_fresh.
    simpl in Hpa. rewrite Nat.eqb_refl in Hpa.
    repeat split; auto.
Qed.

Lemma addBook_success_effect_witness :
  pb_author (mkPopulated (Book.mk 3 "Clean Code" (Some 2008%Z) ["tech"] 2)
                         (Some (Author.mk 2 "Robert Martin" None))) =
    Some (addBook_author clean_code_args w_empty) /\
  authors (mkWorld [Author.mk 2 "Robert Martin" None]
                   [Book.mk 3 "Clean Code" (Some 2008%Z) ["tech"] 2] [alice]
                   [("BOOK_ADDED",
                     mkPopulated (Book.mk 3 "Clean Code" (Some 2008%Z) ["tech"] 2)
                                 (Some (Author.mk 2 "Robert Martin" None)))] 4 []) =
    [Author.mk 2 "Robert Martin" None].
Proof.
  assert (Hi : author_ids_ok w_empty) by (split; constructor).
  destruct (addBook_success_effect SubscriptionsJs (Some alice) clean_code_args w_empty
              (mkWorld [Author.mk 2 "Robert Martin" None]
                 [Book.mk 3 "Clean Code" (Some 2008%Z) ["tech"] 2] [alice]
                 [("BOOK_ADDED",
                   mkPopulated (Book.mk 3 "Clean Code" (Some 2008%Z) ["tech"] 2)
                               (Some (Author.mk 2 "Robert Martin" None)))] 4 [])
              (mkPopulated (Book.mk 3 "Clean Code" (Some 2008%Z) ["tech"] 2)
                           (Some (Author.mk 2 "Robert Martin" None)))
              Hi eq_refl) as (_ & Hpa & _ & _ & _ & _ & _ & _ & Ha).
  split; [exact Hpa | exact Ha].
Defined.




(** X13: a Book just added is found by [allBooks] under its author's name,
    under each of its non-empty genres, and without filters, where it
    comes last. *)
Theorem addBook_then_allBooks (v : Version) (currentUser : option User.t)
    (args : AddBookArgs) (w w' : World) (b : PopulatedBook) :
  addBook_in v currentUser args w = (Ok b, w') ->
  (exists l, allBooks (Some (ab_author args)) None w' = (Ok l, w') /\
             In (pb_doc b) (map pb_doc l)) /\
  (forall g, g <> "" -> In g (Book.genres (pb_doc b)) ->
     exists l, allBooks None (Some g) w' = (Ok l, w') /\ In (pb_doc b) (map pb_doc l)) /\
  (exists l, allBooks None None w' = (Ok l, w') /\
             map pb_doc l = books w ++ [pb_doc b]).
Proof.
  intros H.
  apply addBook_Ok_effect in H as (Hv & Hdoc & _ & Hb & _ & _ & Hf & _).
  assert (Hlast : In (pb_doc b) (books w')).
  { rewrite Hb, in_app_iff. right. now left. }
  assert (Hauth : truthy (Some (ab_author args)) = Some (ab_author args)).
  { unfold valid_addBook_args in Hv. simpl.
    destruct (ab_author args =? "")%string; [|reflexivity].
    rewrite andb_false_r in Hv. discriminate. }
  split; [|split].
  - eexists. split.
    + apply allBooks_result with (oid := Some (Author._id (addBook_author args w))).
      rewrite Hauth. eauto.
    + rewrite pb_doc_populate. apply filter_In. split; [exact Hlast|].
      apply matches_iff. split; [discriminate|].
      intros id [= <-]. rewrite Hdoc. reflexivity.
  - intros g Hg Hin. eexists. split.
    + apply allBooks_result with (oid := None). reflexivity.
    + rewrite pb_doc_populate. apply filter_In. split; [exact Hlast|].
      apply matches_iff. split; [|discriminate].
      simpl. destruct (String.eqb_spec g ""); [contradiction|].
      now intros g' [= <-].
  - eexists. split.
    + apply allBooks_result with (oid := None). reflexivity.
    + rewrite pb_doc_populate. simpl. rewrite filter_all_books. exact Hb.
Qed.

Lemma addBook_then_allBooks_witness :
  exists l,
    allBooks (Some "Robert Martin") None
      (snd (addBook_in SubscriptionsJs (Some alice) clean_code_args w_empty)) =
      (Ok l, snd (addBook_in SubscriptionsJs (Some alice) clean_code_args w_empty)) /\
    In (Book.mk 3 "Clean Code" (Some 2008%Z) ["tech"] 2) (map pb_doc l).
Proof.
  exact (proj1 (addBook_then_allBooks SubscriptionsJs (Some alice) clean_code_args
                  w_empty _ _ eq_refl)).
Defined.

(** ** What the operations do to the store, one by one and in sequence *)

Lemma effect_same (v : Version) (w w' : World) :
  users w' = users w -> authors w' = authors w -> books w' = books w ->
  published w' = published w -> effect v w w'.
Proof.
  intros Hu Ha Hb Hp. constructor; auto. exists []. now rewrite app_nil_r.
Qed.

Lemma valid_args_book_validated (args : AddBookArgs) (id a : ObjectId) (g : list string) :
  valid_addBook_args args = true ->
  book_validated (Book.mk id (ab_title args) (ab_published args) g a) = true.
Proof.
  unfold valid_addBook_args, book_validated. simpl.
  intros H. apply andb_prop in H as [H H2]. apply andb_prop in H as [_ H1].
  now rewrite H1, H2.
Qed.

Lemma addBook_effect (v : Version) (currentUser : option User.t) (args : AddBookArgs)
    (w : World) :
  effect v w (snd (addBook_in v currentUser args w)).
Proof.
  destruct currentUser as [u|]; [|destruct v; now apply effect_same].
  destruct (check_addBook_args_cases args w) as [(Hc & Hv & _) | ((msg & Hc) & _)];
    [|rewrite (addBook_failed_check v u args w msg Hc); now apply effect_same].
  rewrite (addBook_checked v u args w Hc).
  pose proof (valid_args_book_validated args) as Hbv.
  destruct v; unfold_addBook_tail; split_cases;
    try (apply effect_same; reflexivity);
    constructor; simpl;
    try (exists []; now rewrite app_nil_r);
    repeat match goal with
    | |- ?x = ?x \/ _ => left; reflexivity
    | |- _ ++ [_] = _ \/ _ => right
    | |- (exists a, _ ++ [_] = _ ++ [a] /\ _) \/ _ =>
        left; eexists; split; [reflexivity|]; unfold author_validated; simpl;
        match goal with
        | H : (_ <? 4) = false |- _ =>
            rewrite Nat.ltb_antisym in H; now apply negb_false_iff in H
        end
    | |- (?x = ?x /\ ?y = ?y) \/ _ => left; split; reflexivity
    | |- (_ ++ [_] = _ /\ _) \/ _ => right
    | |- exists pb, _ /\ _ /\ _ =>
        first
          [ eexists (mkPopulated _ None); split; [reflexivity|]; split;
            [apply Hbv, Hv | reflexivity]
          | eexists (mkPopulated _ _); split; [reflexivity|]; split;
            [apply Hbv, Hv | reflexivity] ]
    end.
Qed.

Lemma editAuthor_effect (v : Version) (currentUser : option User.t) (name : string)
    (b : Z) (w : World) :
  effect v w (snd (editAuthor currentUser name b w)).
Proof.
  destruct currentUser as [u|]; [|now apply effect_same].
  unfold_editAuthor. split_cases; try (apply effect_same; reflexivity).
  all: constructor; simpl; auto; try (exists []; now rewrite app_nil_r);
    right; right; eauto.
Qed.

Lemma createUser_effect (v : Version) (username favoriteGenre : string) (w : World) :
  effect v w (snd (createUser username favoriteGenre w)).
Proof.
  unfold createUser, UserModel.create, UserModel.save_new, fresh_oid, store_write,
    set_users, as_UserInputError, try_catch, bind, ret, throw.
  split_cases; try (apply effect_same; reflexivity);
    constructor; simpl; eauto.
Qed.

Lemma effect_of_same (v : Version) (w w' : World) : w' = w -> effect v w w'.
Proof. intros ->. now apply effect_same. Qed.

Lemma handle_effect (J : Jwt) (v : Version) (call : option string * Request) (w : World) :
  effect v w (snd (handle J v call w)).
Proof.
  unfold handle, bind. pose proof (context_world J (fst call) w) as H.
  destruct (context J (fst call) w) as [[cu|e] w1]; simpl in H; subst w1;
    [|now apply effect_of_same].
  destruct (snd call); unfold resolve; try rewrite fmap_world.
  - now apply effect_of_same.
  - now apply effect_of_same.
  - apply effect_of_same, allBooks_world.
  - apply effect_of_same. destruct v; [apply Index_allAuthors_world | reflexivity].
  - now apply effect_of_same.
  - apply addBook_effect.
  - apply editAuthor_effect.
  - apply createUser_effect.
  - apply effect_of_same, login_world.
Qed.

(** A relation that holds of every world and itself, and extends along
    the effect of an operation, holds from a world to any world reached
    from it. *)
Lemma run_related (R : World -> World -> Prop) (J : Jwt) (v : Version)
    (calls : list (option string * Request)) (w : World) :
  (forall w0, R w0 w0) ->
  (forall w0 w1 w2, R w0 w1 -> effect v w1 w2 -> R w0 w2) ->
  R w (run J v calls w).
Proof.
  intros Hrefl Hext.
  assert (H : forall w1, R w w1 -> R w (run J v calls w1)).
  { induction calls as [|c r IH]; intros w1 H1; simpl; [exact H1|].
    apply IH. eapply Hext; [exact H1 | apply handle_effect]. }
  apply H, Hrefl.
Qed.

(** X14: over any sequence of operations of the version with the
    subscription, the broker receives exactly one BOOK_ADDED event per Book
    added to the store, in the order of the additions, carrying that Book,
    and no other event; the version of [src/index.js] publishes nothing. *)
Theorem run_publishes_each_added_book (J : Jwt)
    (calls : list (option string * Request)) (w : World) :
  (exists events,
     published (run J SubscriptionsJs calls w) = published w ++ events /\
     books (run J SubscriptionsJs calls w) =
       books w ++ map (fun e => pb_doc (snd e)) events /\
     Forall (fun e => fst e = "BOOK_ADDED") events) /\
  published (run J IndexJs calls w) = published w.
Proof.
  split.
  - apply (run_related
             (fun w0 w1 => exists events,
                published w1 = published w0 ++ events /\
                books w1 = books w0 ++ map (fun e => pb_doc (snd e)) events /\
                Forall (fun e => fst e = "BOOK_ADDED") events)).
    + intros w0. exists []. simpl. rewrite !app_nil_r. auto.
    + intros w0 w1 w2 (ev & Hp & Hb & Hall) [_ _ [[Hb2 Hp2] | (pb & Hb2 & _ & Hp2)]].
      * exists ev. rewrite Hb2, Hp2. auto.
      * exists (ev ++ [("BOOK_ADDED", pb)]).
        rewrite Hb2, Hp2, Hb, Hp, map_app, <- !app_assoc. simpl.
        repeat split. apply Forall_app. split; [exact Hall | now constructor].
  - apply (run_related (fun w0 w1 => published w1 = published w0)).
    + reflexivity.
    + intros w0 w1 w2 Hp [_ _ [[_ Hp2] | (pb & _ & _ & Hp2)]]; congruence.
Qed.

Lemma update_born_validated (id : ObjectId) (b : option Z) (l : list Author.t) :
  forallb author_validated (update_born id b l) = forallb author_validated l.
Proof.
  induction l as [|a r IH]; simpl; [reflexivity|].
  destruct (Author._id a =? id); simpl; [reflexivity | now rewrite IH].
Qed.

(** X15: the operations never store a Book whose title has fewer than two
    characters or whose year is null, nor an Author whose name has fewer
    than four characters: a store that has none has none after any
    sequence of operations. *)
Theorem run_keeps_store_validated (J : Jwt) (v : Version)
    (calls : list (option string * Request)) (w : World) :
  store_validated w = true -> store_validated (run J v calls w) = true.
Proof.
  intros H.
  apply (run_related (fun w0 w1 => store_validated w0 = true -> store_validated w1 = true));
    [auto | | exact H].
  intros w0 w1 w2 H01 [_ Ha Hb] H0. specialize (H01 H0).
  unfold store_validated in *. apply andb_prop in H01 as [Hbs Has].
  apply andb_true_intro. split.
  - destruct Hb as [[-> _] | (pb & -> & Hv & _)]; [exact Hbs|].
    rewrite forallb_app, Hbs. simpl. now rewrite Hv.
  - destruct Ha as [-> | [(a & -> & Hv) | (id & b & ->)]]; [exact Has | |].
    + rewrite forallb_app, Has. simpl. now rewrite Hv.
    + now rewrite update_born_validated.
Qed.

Lemma run_keeps_store_validated_witness :
  store_validated
    (run plain_jwt SubscriptionsJs
       [(Some "Bearer NEED_HERE_A_SECRET_KEY.1.alice",
         M_addBook (mkAddBookArgs "X" "Ann" (Some 1%Z) None));
        (Some "Bearer NEED_HERE_A_SECRET_KEY.1.alice", M_addBook clean_code_args)]
       w_empty) = true.
Proof.
  exact (run_keeps_store_validated plain_jwt SubscriptionsJs _ w_empty eq_refl).
Defined.

Lemma update_born_identity (id : ObjectId) (b : option Z) (l : list Author.t) :
  map (fun a => (Author._id a, Author.name a)) (update_born id b l) =
  map (fun a => (Author._id a, Author.name a)) l.
Proof.
  induction l as [|a r IH]; simpl; [reflexivity|].
  destruct (Author._id a =? id); simpl; [reflexivity | now rewrite IH].
Qed.

(** X16: no operation deletes or alters a Book or a User, and none
    deletes an Author or changes an Author's identifier or name: after any
    sequence of operations the Books and the Users are the former ones
    followed by new ones, and so are the identifiers and names of the
    Authors. *)
Theorem run_only_adds (J : Jwt) (v : Version)
    (calls : list (option string * Request)) (w : World) :
  (exists l, books (run J v calls w) = books w ++ l) /\
  (exists l, users (run J v calls w) = users w ++ l) /\
  (exists l, map (fun a => (Author._id a, Author.name a)) (authors (run J v calls w)) =
             map (fun a => (Author._id a, Author.name a)) (authors w) ++ l).
Proof.
  apply (run_related
           (fun w0 w1 =>
              (exists l, books w1 = books w0 ++ l) /\
              (exists l, users w1 = users w0 ++ l) /\
              (exists l, map (fun a => (Author._id a, Author.name a)) (authors w1) =
                         map (fun a => (Author._id a, Author.name a)) (authors w0) ++ l))).
  - intros w0. repeat split; exists []; now rewrite app_nil_r.
  - intros w0 w1 w2 ((lb & Hb) & (lu & Hu) & (la & Ha)) [(lu2 & Hu2) Ha2 Hb2].
    repeat split.
    + destruct Hb2 as [[-> _] | (pb & -> & _)]; [eauto|].
      rewrite Hb, <- app_assoc. eauto.
    + rewrite Hu2, Hu, <- app_assoc. eauto.
    + destruct Ha2 as [-> | [(a & -> & _) | (id & b & ->)]]; [eauto | |].
      * rewrite map_app, Ha, <- app_assoc. eauto.
      * rewrite update_born_identity. eauto.
Qed.

(** X17: Book references stay resolvable: if every Book's author reference
    resolves to a stored Author, it does so after any sequence of
    operations, and every Book that [allBooks] then returns comes with an
    author that is not null. *)
Theorem run_keeps_references_resolved (J : Jwt) (v : Version)
    (calls : list (option string * Request)) (w : World)
    (author genre : option string) (l : list PopulatedBook) (w' : World) :
  refs_ok w = true ->
  refs_ok (run J v calls w) = true /\
  (allBooks author genre (run J v calls w) = (Ok l, w') ->
   forall pb, In pb l -> pb_author pb <> None).
Proof.
  intros H.
  assert (Hr : refs_ok (run J v calls w) = true).
  { now apply (run_preserves (fun w0 => refs_ok w0 = true)); [exact step_refs|]. }
  split; [exact Hr|].
  set (w1 := run J v calls w) in *. intros Hl pb Hpb.
  assert (Hshape : exists oid,
            l = map (populate_in w1) (filter (BookModel.matches (truthy genre) oid)
                                             (books w1))).
  { destruct (truthy author) as [n|] eqn:Ht.
    - destruct (find (fun x => (Author.name x =? n)%string) (authors w1)) as [a|] eqn:Hf.
      + exists (Some (Author._id a)).
        rewrite (allBooks_result author genre w1 (Some (Author._id a))) in Hl
          by (rewrite Ht; eauto).
        now injection Hl as <- _.
      + rewrite (allBooks_unknown_author author genre n w1 Ht Hf) in Hl. discriminate.
    - exists None.
      rewrite (allBooks_result author genre w1 None) in Hl by now rewrite Ht.
      now injection Hl as <- _. }
  destruct Hshape as (oid & ->).
  apply in_map_iff in Hpb as (b & <- & Hb). apply filter_In in Hb as [Hb _].
  unfold refs_ok in Hr. rewrite forallb_forall in Hr.
  destruct (find_existsb _ _ (Hr b Hb)) as [a Ha].
  unfold populate_in. simpl. rewrite Ha. discriminate.
Qed.

Lemma run_keeps_references_resolved_witness :
  refs_ok (run plain_jwt SubscriptionsJs
             [(Some "Bearer NEED_HERE_A_SECRET_KEY.1.alice", M_addBook clean_code_args)]
             w_empty) = true.
Proof.
  exact (proj1 (run_keeps_references_resolved plain_jwt SubscriptionsJs
                  [(Some "Bearer NEED_HERE_A_SECRET_KEY.1.alice", M_addBook clean_code_args)]
                  w_empty None None [] w_empty eq_refl)).
Defined.

(** ** editAuthor repeated *)

(** [editAuthor] for a stored Author when the store accepts the write. *)
Lemma editAuthor_accepted (u : User.t) (name : string) (v : Z) (w : World) (a : Author.t) :
  NoDup (map Author._id (authors w)) ->
  find (fun x => (Author.name x =? name)%string) (authors w) = Some a ->
  accepted 1 (faults w) = true ->
  editAuthor (Some u) name v w =
  (Ok (Some (Author.mk (Author._id a) (Author.name a) (Some v))),
   mkWorld (map (fun x => if Author._id x =? Author._id a
                          then Author.mk (Author._id a) (Author.name a) (Some v)
                          else x) (authors w))
           (books w) (users w) (published w) (next_oid w) (tl (faults w))).
Proof.
  intros Hn Hf Hacc. pose proof (find_some _ _ Hf) as [Hin _].
  pose proof (update_born_map a (Some v) (authors w) Hn Hin) as Hu.
  unfold_editAuthor. rewrite Hf. simpl.
  destruct (faults w) as [|[msg|] rest] eqn:Ew; simpl in *; try discriminate;
    rewrite Hu, ?Ew; reflexivity.
Qed.

Lemma find_name_after_update (a : Author.t) (b : option Z) (n : string) (l : list Author.t) :
  NoDup (map Author._id l) ->
  find (fun x => (Author.name x =? n)%string) l = Some a ->
  find (fun x => (Author.name x =? n)%string)
       (map (fun x => if Author._id x =? Author._id a
                      then Author.mk (Author._id a) (Author.name a) b else x) l) =
  Some (Author.mk (Author._id a) (Author.name a) b).
Proof.
  induction l as [|x r IH]; simpl; intros Hn Hf; [discriminate|].
  inversion Hn as [|i ids Hx Hr]; subst.
  destruct (Author.name x =? n)%string eqn:E.
  - injection Hf as ->. rewrite Nat.eqb_refl. simpl. now rewrite E.
  - pose proof (find_some _ _ Hf) as [Hin _].
    destruct (Nat.eqb_spec (Author._id x) (Author._id a)) as [Heq|Hne].
    + exfalso. apply Hx. rewrite Heq. now apply in_map.
    + simpl. rewrite E. now apply IH.
Qed.

Lemma update_keeps_ids (a a' : Author.t) (l : list Author.t) :
  Author._id a' = Author._id a ->
  map Author._id (map (fun x => if Author._id x =? Author._id a then a' else x) l) =
  map Author._id l.
Proof.
  intros Hid. rewrite map_map. apply map_ext_in. intros x _.
  destruct (Nat.eqb_spec (Author._id x) (Author._id a)); congruence.
Qed.

(** X18: the last [editAuthor] wins: two accepted edits of one stored
    Author leave the store as the second alone would, whoever the callers;
    the second returns the Author with the second birth year, and a lookup
    by name then finds it.  (Author identifiers are unique.) *)
Theorem editAuthor_last_write_wins (u1 u2 : User.t) (name : string) (v1 v2 : Z)
    (w : World) (a : Author.t) :
  NoDup (map Author._id (authors w)) ->
  find (fun x => (Author.name x =? name)%string) (authors w) = Some a ->
  accepted 2 (faults w) = true ->
  let w1 := snd (editAuthor (Some u1) name v1 w) in
  let updated := Author.mk (Author._id a) (Author.name a) (Some v2) in
  fst (editAuthor (Some u2) name v2 w1) = Ok (Some updated) /\
  catalog (snd (editAuthor (Some u2) name v2 w1)) =
    catalog (snd (editAuthor (Some u2) name v2 w)) /\
  find (fun x => (Author.name x =? name)%string)
       (authors (snd (editAuthor (Some u2) name v2 w1))) = Some updated.
Proof.
  intros Hn Hf Hacc.
  assert (Hacc1 : accepted 1 (faults w) = true).
  { destruct (faults w) as [|[m|] r]; simpl in *; auto. }
  assert (Hacc2 : accepted 1 (tl (faults w)) = true).
  { destruct (faults w) as [|[m|] [|[m2|] r]]; simpl in *; auto. }
  cbv zeta. rewrite (editAuthor_accepted u1 name v1 w a Hn Hf Hacc1).
  rewrite (editAuthor_accepted u2 name v2 w a Hn Hf Hacc1).
  cbn [fst snd].
  set (a1 := Author.mk (Author._id a) (Author.name a) (Some v1)).
  set (w1 := mkWorld _ (books w) (users w) (published w) (next_oid w) (tl (faults w))).
  assert (Hn1 : NoDup (map Author._id (authors w1))).
  { unfold w1. simpl. now rewrite (update_keeps_ids a a1). }
  assert (Hf1 : find (fun x => (Author.name x =? name)%string) (authors w1) = Some a1).
  { unfold w1. simpl. now apply find_name_after_update. }
  rewrite (editAuthor_accepted u2 name v2 w1 a1 Hn1 Hf1 Hacc2). cbn [fst snd].
  unfold a1 at 2 3 4 5. simpl.
  split; [reflexivity|]. split.
  - unfold catalog. simpl. f_equal. f_equal.
    rewrite map_map. apply map_ext. intros x.
    destruct (Nat.eqb_spec (Author._id x) (Author._id a)) as [Heq|Hne]; simpl.
    + now rewrite Nat.eqb_refl.
    + destruct (Nat.eqb_spec (Author._id x) (Author._id a)); [contradiction|reflexivity].
  - apply (find_name_after_update a1 (Some v2) name _ Hn1 Hf1).
Qed.

Lemma editAuthor_last_write_wins_witness :
  fst (editAuthor (Some alice) "Robert Martin" 1952%Z
         (snd (editAuthor (Some alice) "Robert Martin" 1900%Z w_one))) =
    Ok (Some (Author.mk 2 "Robert Martin" (Some 1952%Z))) /\
  catalog (snd (editAuthor (Some alice) "Robert Martin" 1952%Z
                  (snd (editAuthor (Some alice) "Robert Martin" 1900%Z w_one)))) =
    catalog (snd (editAuthor (Some alice) "Robert Martin" 1952%Z w_one)).
Proof.
  assert (Hn : NoDup (map Author._id (authors w_one))).
  { simpl. constructor; [intros [] | constructor]. }
  destruct (editAuthor_last_write_wins alice alice "Robert Martin" 1900%Z 1952%Z
              w_one martin Hn eq_refl eq_refl) as (H1 & H2 & _).
  split; [exact H1 | exact H2].
Defined.

(** ** createUser, then login, then the context *)

(** [createUser] when the store accepts the write. *)
Lemma createUser_accepted (username favoriteGenre : string) (w : World) :
  accepted 1 (faults w) = true ->
  createUser username favoriteGenre w =
  (Ok (User.mk (next_oid w) username favoriteGenre),
   mkWorld (authors w) (books w)
           (users w ++ [User.mk (next_oid w) username favoriteGenre])
           (published w) (S (next_oid w)) (tl (faults w))).
Proof.
  intros Hacc.
  unfold createUser, UserModel.create, UserModel.save_new, fresh_oid, store_write,
    set_users, as_UserInputError, try_catch, bind, ret, throw. simpl.
  destruct (faults w) as [|[msg|] rest] eqn:Ew; simpl in *; try discriminate;
    rewrite ?Ew; reflexivity.
Qed.

Lemma find_user_id_fresh (n : ObjectId) (l : list User.t) :
  Forall (fun u => User._id u < n) l ->
  find (fun x => User._id x =? n) l = None.
Proof.
  induction 1 as [|a r Ha Hr IH]; simpl; [reflexivity|].
  destruct (Nat.eqb_spec (User._id a) n); [lia | exact IH].
Qed.

(** X19: an account created under a username nobody has can log in with
    the fixed password without authenticating first; the token it gets,
    presented as [Bearer <token>], makes that account the current user,
    so that its mutations are no longer refused as unauthenticated.  The
    favorite genre given at creation comes back from [login] in the
    version with the subscription, and not in [src/index.js]. *)
Theorem createUser_then_login (J : Jwt) (v : Version) (username favoriteGenre : string)
    (w : World) :
  jwt_sound J ->
  accepted 1 (faults w) = true ->
  (forall u, In u (users w) -> User.username u <> username) ->
  Forall (fun u => User._id u < next_oid w) (users w) ->
  let created := User.mk (next_oid w) username favoriteGenre in
  let w1 := snd (createUser username favoriteGenre w) in
  let token := jwt_sign J (mkUserForToken username (next_oid w)) JWT_SECRET in
  fst (createUser username favoriteGenre w) = Ok created /\
  login_in v J username "secret" w1 =
    (Ok (mkTokenObject token
           (match v with
            | IndexJs => None
            | SubscriptionsJs => Some favoriteGenre
            end)), w1) /\
  context J (Some ("Bearer " ++ token)%string) w1 = (Ok (Some created), w1).
Proof.
  intros HJ Hacc Hnew Hlt. cbv zeta.
  rewrite (createUser_accepted username favoriteGenre w Hacc). cbn [fst snd].
  assert (Hf : find (fun x => (User.username x =? username)%string) (users w) = None).
  { destruct (find _ (users w)) as [u0|] eqn:Hf; [|reflexivity].
    apply find_some in Hf as [Hin Hu]. apply String.eqb_eq in Hu.
    now destruct (Hnew u0 Hin). }
  split; [reflexivity|]. split.
  - destruct v; unfold login_in, Index.login, Subscriptions.login, UserModel.findOne,
      userForToken, bind, ret, throw; simpl;
      rewrite (find_snoc_None _ _ _ Hf); simpl; rewrite String.eqb_refl; reflexivity.
  - unfold context. destruct (bearer_header
        (jwt_sign J (mkUserForToken username (next_oid w)) JWT_SECRET)) as (-> & -> & ->).
    rewrite HJ. unfold UserModel.findById. simpl.
    rewrite (find_snoc_None _ _ _ (find_user_id_fresh _ _ Hlt)). simpl.
    now rewrite Nat.eqb_refl.
Qed.

Lemma createUser_then_login_witness :
  login_in SubscriptionsJs plain_jwt "bob" "secret"
    (snd (createUser "bob" "crime" w_empty)) =
    (Ok (mkTokenObject "NEED_HERE_A_SECRET_KEY.11.bob" (Some "crime")),
     snd (createUser "bob" "crime" w_empty)) /\
  context plain_jwt (Some "Bearer NEED_HERE_A_SECRET_KEY.11.bob")
    (snd (createUser "bob" "crime" w_empty)) =
    (Ok (Some (User.mk 2 "bob" "crime")), snd (createUser "bob" "crime" w_empty)).
Proof.
  assert (Hnew : forall u, In u (users w_empty) -> User.username u <> "bob").
  { intros u [<- | []]. discriminate. }
  assert (Hlt : Forall (fun u => User._id u < next_oid w_empty) (users w_empty)).
  { repeat constructor. }
  exact (proj2 (createUser_then_login plain_jwt SubscriptionsJs "bob" "crime" w_empty
                  plain_jwt_sound eq_refl Hnew Hlt)).
Defined.

(** ** The counts *)

Lemma mapM_length {A B} (f : A -> M B) (l : list A) (w w' : World) (l' : list B) :
  mapM f l w = (Ok l', w') -> length l' = length l.
Proof.
  revert w w' l'. induction l as [|x r IH]; intros w w' l'; simpl.
  - now intros [= <- _].
  - unfold bind at 1. destruct (f x w) as [[y|e] w1]; [|discriminate].
    unfold bind at 1. destruct (mapM f r w1) as [[ys|e] w2] eqn:E; [|discriminate].
    intros [= <- _]. simpl. f_equal. eapply IH, E.
Qed.

(** X20: [bookCount] is the number of Books [allBooks] returns without
    filters, and [authorCount] the number of Authors [allAuthors] returns
    whenever it returns; a successful [addBook] raises [bookCount] by one,
    and [authorCount] by one when it created the Author and not
    otherwise. *)
Theorem counts_agree_with_listings (v : Version) (w : World) :
  (exists l, allBooks None None w = (Ok l, w) /\ bookCount w = (Ok (length l), w)) /\
  (forall l w', allAuthors_in v w = (Ok l, w') -> authorCount w = (Ok (length l), w)) /\
  (forall cu args b w', addBook_in v cu args w = (Ok b, w') ->
     bookCount w' = (Ok (S (length (books w))), w') /\
     authorCount w' =
       (Ok (length (authors w) +
            match find (fun a => (Author.name a =? ab_author args)%string) (authors w) with
            | Some _ => 0
            | None => 1
            end), w')).
Proof.
  split; [|split].
  - eexists. split.
    + apply allBooks_result with (oid := None). reflexivity.
    + unfold bookCount, BookModel.countDocuments. simpl.
      now rewrite length_map, filter_all_books.
  - intros l w' H. unfold authorCount, AuthorModel.countDocuments.
    destruct v; simpl in H.
    + unfold Index.allAuthors in H.
      unfold bind at 1 in H. unfold AuthorModel.find_all at 1 in H.
      unfold bind at 1 in H. unfold BookModel.find at 1 in H.
      unfold bind at 1 in H. rewrite mapM_populate in H.
      now rewrite (mapM_length _ _ _ _ _ H).
    + unfold Subscriptions.allAuthors, AuthorModel.find_all, bind, ret in H.
      injection H as <- _. now rewrite length_map.
  - intros cu args b w' H.
    apply addBook_Ok_effect in H as (_ & _ & _ & Hb & _ & Ha & _).
    unfold bookCount, BookModel.countDocuments, authorCount, AuthorModel.countDocuments.
    rewrite Hb, Ha, length_app. simpl.
    destruct (find _ (authors w)); rewrite ?length_app; simpl;
      split; do 2 f_equal; lia.
Qed.
